(** * nodelet::Loader — lifecycle registry of dynamically loaded nodelets

    Shallow embedding of [src/nodelet/src/loader.cpp] and the properties of
    its load / unload / list / teardown logic.

    - [StdMap]    : [std::map<std::string, V>] as the strictly ascending
                    sequence of its entries (what iteration from [begin()]
                    to [end()] visits).
    - [Effects]   : the state-and-exception monad the methods run in; every
                    call on a collaborator (plugin factory, nodelet, bond,
                    callback manager, rosconsole) is recorded in a trace.
    - [Loader]    : class [nodelet::Loader].
    - [LoaderROS] : class [nodelet::detail::LoaderROS] (service callbacks).
    - [call], [run] : histories of calls on one loader.
    - [Concurrent] : threads calling [Loader::load] under [lock_].

    The properties follow the definitions: failed loads, unloading,
    teardown, [serviceLoad] with ill-formed remappings, listing, and
    concurrent loads of one name.
*)

From Stdlib Require Import String Ascii List Bool Arith ZArith Lia.
From Stdlib Require Import Sorted Permutation OrderedTypeEx.
Import ListNotations.

Local Open Scope string_scope.
Local Open Scope list_scope.

(* ================================================================== *)
(** ** [std::map<std::string, V>] *)

Module StdMap.

(** [std::less<std::string>]: lexicographic comparison of the bytes,
  each byte compared as an unsigned value. *)
Definition key_lt (a b : string) : Prop := String.compare a b = Lt.

Section Ops.
Context {V : Type}.

(** The entries in iteration order. *)
Definition t : Type := list (string * V).

Definition empty : t := [].

Definition keys (m : t) : list string := map fst m.

(** [m.find(k)], [None] standing for [m.end()]. *)
Fixpoint find (k : string) (m : t) : option V :=
  match m with
  | [] => None
  | (k', v) :: m' => if String.eqb k k' then Some v else find k m'
  end.

(** [m.count(k)]: 0 or 1 for a map. *)
Definition count (k : string) (m : t) : nat :=
  match find k m with Some _ => 1 | None => 0 end.

(** [m[k] = v]: the entry is created at its place in the key order, or
    overwritten when the key is already there. *)
Fixpoint assign (k : string) (v : V) (m : t) : t :=
  match m with
  | [] => [(k, v)]
  | (k', v') :: m' =>
      match String.compare k k' with
      | Lt => (k, v) :: (k', v') :: m'
      | Eq => (k, v) :: m'
      | Gt => (k', v') :: assign k v m'
      end
  end.

(** [m.erase(m.find(k))] for a key that was found. *)
Fixpoint erase (k : string) (m : t) : t :=
  match m with
  | [] => []
  | (k', v) :: m' => if String.eqb k k' then m' else (k', v) :: erase k m'
  end.

(** Class invariant of [std::map]: keys strictly ascending. *)
Definition wf (m : t) : Prop := StronglySorted key_lt (keys m).

End Ops.

Arguments t : clear implicits.

End StdMap.

(** [ros::M_string] and [std::vector<std::string>]. *)
Definition M_string : Type := StdMap.t string.
Definition V_string : Type := list string.

(* ================================================================== *)
(** ** Collaborators and the effects of calling them *)

(** What a [catch] clause can tell apart: [pluginlib::PluginlibException]
    (and its subclasses) from every other exception. *)
Inductive Exception : Type :=
| PluginlibException (what : string)
| OtherException (what : string).

(** [bond::Bond(topic, id)]. *)
Record Bond : Type := mkBond {
  bond_topic : string;
  bond_id : string
}.

(** A constructed [nodelet::Nodelet]. The class is a plugin and lives outside
    this translation unit: an instance is known by its address and by whether
    its [init] throws on given arguments. *)
Record Nodelet : Type := mkNodelet {
  address : nat;
  init_throws : string -> M_string -> V_string -> option Exception
}.

(** A non-null [boost::shared_ptr<Nodelet>]; the null pointer is [None] where
    the source tests for it. *)
Definition NodeletPtr : Type := Nodelet.
Definition M_stringToNodelet : Type := StdMap.t NodeletPtr.

Inductive QueueKind : Type := st_callback_queue_ | mt_callback_queue_.

(** Calls on collaborators, in program order. *)
Inductive Event : Type :=
| MutexLock
| MutexUnlock
| ROS_ERROR (format : string) (args : list string)
| ROS_INFO (format : string) (d : Z)
| ROS_DEBUG (format : string) (args : list string)
| AdvertiseService (service : string)
| BondSpinnerStart
| CreateClassInstance (type : string)
| NewCallbackQueue (p : NodeletPtr) (q : QueueKind)
| NodeletInit (p : NodeletPtr) (name : string) (remappings : M_string)
              (my_argv : V_string) (bond : option Bond)
| NodeletDisable (p : NodeletPtr)
| NodeletRelease (p : NodeletPtr)
| BondSetCallbackQueue (b : Bond)
| BondSetBrokenCallback (b : Bond) (unload_name : string)
| BondStart (b : Bond)
| ServicesReset
| CallbackManagerStop
| CallbackManagerReset.

Inductive Outcome (A : Type) : Type :=
| Returns (a : A)
| Throws (e : Exception)
| Aborts.

Arguments Returns {A} a.
Arguments Throws {A} e.
Arguments Aborts {A}.

(** [pluginlib::ClassLoader<Nodelet>]: the outcome of the n-th call of
    [createClassInstance(type)]; [Returns None] is a null pointer. *)
Record ClassLoader : Type := mkClassLoader {
  createClassInstance_ : nat -> string -> Outcome (option Nodelet);
  calls : nat
}.

(** [ros::NodeHandle]: its namespace and the parameter the constructor reads. *)
Record NodeHandle : Type := mkNodeHandle {
  getNamespace : string;
  num_worker_threads : option Z
}.

(** [detail::CallbackQueueManager]: thread count asked for ([None] for the
    default constructor) and whether the workers are running. *)
Record CallbackQueueManager : Type := mkCallbackQueueManager {
  num_threads : option Z;
  running : bool
}.

(** The members of [detail::LoaderROS] other than [parent_]. *)
Record LoaderROSData : Type := mkLoaderROS {
  nh_ : NodeHandle
}.

(** The members of [nodelet::Loader]. *)
Record LoaderData : Type := mkLoader {
  loader_ : ClassLoader;
  services_ : option LoaderROSData;
  callback_manager_ : option CallbackQueueManager;
  nodelets_ : M_stringToNodelet
}.

Record World : Type := mkWorld {
  this : LoaderData;
  trace : list Event
}.

Module Effects.

Definition M (A : Type) : Type := World -> Outcome A * World.

Definition ret {A} (a : A) : M A := fun w => (Returns a, w).

Definition bind {A B} (m : M A) (k : A -> M B) : M B :=
  fun w =>
  match m w with
  | (Returns a, w') => k a w'
  | (Throws e, w') => (Throws e, w')
  | (Aborts, w') => (Aborts, w')
  end.

Definition throw {A} (e : Exception) : M A := fun w => (Throws e, w).

Definition abort {A} : M A := fun w => (Aborts, w).

(** [try { body } catch (pluginlib::PluginlibException& e) { handler }]:
  any other exception passes through. *)
Definition try_catch_PluginlibException {A}
  (body : M A) (handler : string -> M A) : M A :=
  fun w =>
  match body w with
  | (Throws (PluginlibException what), w') => handler what w'
  | r => r
  end.

Definition emit (e : Event) : M unit :=
  fun w => (Returns tt, mkWorld (this w) (trace w ++ [e])).

Definition get : M LoaderData := fun w => (Returns (this w), w).

Definition put (l : LoaderData) : M unit :=
  fun w => (Returns tt, mkWorld l (trace w)).

(** [boost::mutex::scoped_lock lock (lock_);] as the first statement of a
  method: [lock_] is held for the whole body and released when the scope is
  left, by a return or by an exception passing through. *)
Definition scoped_lock {A} (body : M A) : M A :=
  fun w =>
  match body (mkWorld (this w) (trace w ++ [MutexLock])) with
  | (Aborts, w') => (Aborts, w')
  | (r, w') => (r, mkWorld (this w') (trace w' ++ [MutexUnlock]))
  end.

Fixpoint for_each {A} (f : A -> M unit) (l : list A) : M unit :=
  match l with
  | [] => ret tt
  | a :: l' => bind (f a) (fun _ => for_each f l')
  end.

End Effects.

Import Effects.

Declare Scope cpp_scope.
Delimit Scope cpp_scope with cpp.
Notation "x <- m ;; k" := (bind m (fun x => k))
  (at level 61, m at next level, right associativity) : cpp_scope.
Notation "m ;; k" := (bind m (fun _ => k))
  (at level 61, right associativity) : cpp_scope.
Local Open Scope cpp_scope.

(** Field updates of [LoaderData]. *)
Definition set_nodelets (m : M_stringToNodelet) (l : LoaderData) : LoaderData :=
  mkLoader (loader_ l) (services_ l) (callback_manager_ l) m.
Definition set_services (s : option LoaderROSData) (l : LoaderData) : LoaderData :=
  mkLoader (loader_ l) s (callback_manager_ l) (nodelets_ l).
Definition set_callback_manager (c : option CallbackQueueManager) (l : LoaderData)
  : LoaderData :=
  mkLoader (loader_ l) (services_ l) c (nodelets_ l).
Definition set_loader (c : ClassLoader) (l : LoaderData) : LoaderData :=
  mkLoader c (services_ l) (callback_manager_ l) (nodelets_ l).

(* ================================================================== *)
(** ** class [nodelet::Loader] *)

Module Loader.

(** [loader_->createClassInstance(type)]. *)
Definition createClassInstance (type : string) : M (option Nodelet) :=
  emit (CreateClassInstance type) ;;
  l <- get ;;
  put (set_loader (mkClassLoader (createClassInstance_ (loader_ l))
                                 (S (calls (loader_ l)))) l) ;;
  match createClassInstance_ (loader_ l) (calls (loader_ l)) type with
  | Returns p => ret p
  | Throws e => throw e
  | Aborts => abort
  end.

(** [p->init(name, remappings, my_argv, callback_manager_.get(), bond)]. *)
Definition Nodelet_init (p : NodeletPtr) (name : string) (remappings : M_string)
    (my_argv : V_string) (bond : option Bond) : M unit :=
  emit (NodeletInit p name remappings my_argv bond) ;;
  match init_throws p name remappings my_argv with
  | Some e => throw e
  | None => ret tt
  end.

(** The test [nodelets_.count(name) > 0] that opens [Loader::load]. *)
Definition load_name_exists (name : string) : M bool :=
  l <- get ;;
  ret (0 <? StdMap.count name (nodelets_ l))%nat.

(** The [try] block of [Loader::load] with its [catch] clause and the
    [return false] that follows it. *)
Definition load_create (name type : string) (remappings : M_string)
    (my_argv : V_string) (bond : option Bond) : M bool :=
  try_catch_PluginlibException
    (p <- createClassInstance type ;;
     match p with
     | None => ret false
     | Some p =>
         l <- get ;;
         put (set_nodelets (StdMap.assign name p (nodelets_ l)) l) ;;
         emit (ROS_DEBUG "Done loading nodelet %s" [name]) ;;
         emit (NewCallbackQueue p st_callback_queue_) ;;
         emit (NewCallbackQueue p mt_callback_queue_) ;;
         Nodelet_init p name remappings my_argv bond ;;
         match bond with
         | Some b => emit (BondSetBrokenCallback b name)
         | None => ret tt
         end ;;
         emit (ROS_DEBUG "Done initing nodelet %s" [name]) ;;
         ret true
     end)
    (fun what =>
       emit (ROS_ERROR "Failed to load nodelet [%s] of type [%s]: %s"
                       [name; type; what]) ;;
       ret false).

(** [bool Loader::load(name, type, remappings, my_argv, bond)]. *)
Definition load (name type : string) (remappings : M_string)
    (my_argv : V_string) (bond : option Bond) : M bool :=
  scoped_lock
    (exists_ <- load_name_exists name ;;
     if (exists_ : bool) then
       emit (ROS_ERROR
          "Cannot load nodelet %s for one exists with that name already"
          [name]) ;;
       ret false
     else
       load_create name type remappings my_argv bond).

(** [bool Loader::unload(name)]. *)
Definition unload (name : string) : M bool :=
  scoped_lock
    (l <- get ;;
     match StdMap.find name (nodelets_ l) with
     | Some p =>
         emit (NodeletDisable p) ;;
         put (set_nodelets (StdMap.erase name (nodelets_ l)) l) ;;
         emit (NodeletRelease p) ;;
         emit (ROS_DEBUG "Done unloading nodelet %s" [name]) ;;
         ret true
     | None => ret false
     end).

(** [nodelets_.clear()]: every entry's pointer is dropped. The standard
    fixes no order for these destructions; the tree of libstdc++ is torn
    down right subtree, node, left subtree, that is from the largest key to
    the smallest, and this is the order recorded. The properties below are
    stated for the releases up to their order. *)
Definition nodelets_clear : M unit :=
  l <- get ;;
  for_each (fun e => emit (NodeletRelease (snd e))) (rev (nodelets_ l)) ;;
  l <- get ;;
  put (set_nodelets StdMap.empty l).

(** [bool Loader::clear()]. *)
Definition clear : M bool :=
  scoped_lock (nodelets_clear ;; ret true).

(** [std::vector<std::string> Loader::listLoadedNodelets()]: the loop
    pushes [it->first] for [it] from [begin()] to [end()]. *)
Definition listLoadedNodelets : M (list string) :=
  scoped_lock
    (l <- get ;;
     ret (fold_left (fun output it => output ++ [fst it]) (nodelets_ l) [])).

(** [new detail::LoaderROS(parent, nh)]. *)
Definition LoaderROS_new (nh : NodeHandle) : M LoaderROSData :=
  emit (AdvertiseService "load_nodelet") ;;
  emit (AdvertiseService "unload_nodelet") ;;
  emit (AdvertiseService "list") ;;
  emit BondSpinnerStart ;;
  ret (mkLoaderROS nh).

(** [void Loader::constructorImplementation(provide_ros_api, server_nh)]. *)
Definition constructorImplementation (provide_ros_api : bool)
    (server_nh : NodeHandle) : M unit :=
  (if provide_ros_api then
     s <- LoaderROS_new server_nh ;;
     l <- get ;;
     put (set_services (Some s) l) ;;
     match num_worker_threads server_nh with
     | Some num_threads_param =>
         l <- get ;;
         put (set_callback_manager
                (Some (mkCallbackQueueManager (Some num_threads_param) true)) l) ;;
         emit (ROS_INFO "Initializing nodelet with %d worker threads."
                        num_threads_param)
     | None => ret tt
     end
   else ret tt) ;;
  l <- get ;;
  match callback_manager_ l with
  | None => put (set_callback_manager
                   (Some (mkCallbackQueueManager None true)) l)
  | Some _ => ret tt
  end.

(** [Loader::Loader(...)]: the members as the initialiser list leaves them,
    then [constructorImplementation]. Both constructors have this shape;
    [Loader(bool)] passes the private handle [ros::NodeHandle("~")] and
    [Loader(ros::NodeHandle)] passes [true]. *)
Definition Loader_new (plugins : ClassLoader) (provide_ros_api : bool)
    (server_nh : NodeHandle) : Outcome unit * World :=
  constructorImplementation provide_ros_api server_nh
    (mkWorld (mkLoader plugins None None StdMap.empty) []).

(** [callback_manager_->stop()]; the pointer is dereferenced. *)
Definition callback_manager_stop : M unit :=
  l <- get ;;
  match callback_manager_ l with
  | None => abort
  | Some cm =>
      emit CallbackManagerStop ;;
      put (set_callback_manager
             (Some (mkCallbackQueueManager (num_threads cm) false)) l)
  end.

(** [services_.reset()] and [callback_manager_.reset()]. *)
Definition services_reset : M unit :=
  l <- get ;;
  put (set_services None l) ;;
  emit ServicesReset.

Definition callback_manager_reset : M unit :=
  l <- get ;;
  put (set_callback_manager None l) ;;
  emit CallbackManagerReset.

(** [Loader::~Loader()]. *)
Definition Loader_delete : M unit :=
  services_reset ;;
  callback_manager_stop ;;
  nodelets_clear ;;
  callback_manager_reset.

End Loader.

(* ================================================================== *)
(** ** class [nodelet::detail::LoaderROS] *)

(** [nodelet::NodeletLoad::Request] and the three responses. *)
Record NodeletLoadRequest : Type := mkNodeletLoadRequest {
  req_name : string;
  req_type : string;
  remap_source_args : list string;
  remap_target_args : list string;
  req_my_argv : list string;
  req_bond_id : string
}.

(** [ros::InvalidNameException], a [ros::Exception] and so no
    [PluginlibException]. *)
Definition InvalidNameException : Exception :=
  OtherException "ros::InvalidNameException".

(** The format of the [ROS_DEBUG] line of [serviceLoad], which ends in a
    newline character. *)
Definition remap_debug_format : string :=
  "%s:%s" ++ String "010"%char EmptyString.

Module LoaderROS.

Section Services.

(** [ros::names::resolve], a function of the ROS client library: the
    resolved name, or [None] where it throws [ros::InvalidNameException]
    because the name is not a valid graph resource name. *)
Variable resolve : string -> option string.

(** The [for] loop of [serviceLoad], from index [i] for [n] iterations. The
    assignment resolves both names, in an order the language leaves open;
    if either call throws, the exception leaves the loop. *)
Fixpoint build_map (n i : nat) (req : NodeletLoadRequest)
    (remappings : M_string) : M M_string :=
  match n with
  | 0 => ret remappings
  | S n' =>
      match resolve (nth i (remap_source_args req) ""),
            resolve (nth i (remap_target_args req) "") with
      | Some source, Some target =>
          let remappings' := StdMap.assign source target remappings in
          emit (ROS_DEBUG remap_debug_format
                  [source;
                   match StdMap.find source remappings' with
                   | Some s => s
                   | None => ""
                   end]) ;;
          build_map n' (S i) req remappings'
      | _, _ => throw InvalidNameException
      end
  end.

(** [bool LoaderROS::serviceLoad(req, res)]: the returned flag and
    [res.success]. *)
Definition serviceLoad (self : LoaderROSData) (req : NodeletLoadRequest)
  : M (bool * bool) :=
  remappings <-
    (if negb (length (remap_source_args req) =? length (remap_target_args req))%nat
     then
       emit (ROS_ERROR
          "Bad remapppings provided, target and source of different length" []) ;;
       ret StdMap.empty
     else
       build_map (length (remap_source_args req)) 0 req StdMap.empty) ;;
  bond <-
    (if negb (String.eqb (req_bond_id req) "")
     then
       let b := mkBond (getNamespace (nh_ self) ++ "/bond") (req_bond_id req) in
       emit (BondSetCallbackQueue b) ;;
       ret (Some b)
     else ret None) ;;
  success <- Loader.load (req_name req) (req_type req) remappings
                         (req_my_argv req) bond ;;
  match bond with
  | Some b => emit (BondStart b)
  | None => ret tt
  end ;;
  ret (success, success).

(** [bool LoaderROS::serviceUnload(req, res)]. *)
Definition serviceUnload (self : LoaderROSData) (name : string)
  : M (bool * bool) :=
  success <- Loader.unload name ;;
  (if negb success
   then emit (ROS_ERROR "Failed to find nodelet with name '%s' to unload."
                        [name])
   else ret tt) ;;
  ret (success, success).

(** [bool LoaderROS::serviceList(req, res)]: the flag and [res.nodelets]. *)
Definition serviceList (self : LoaderROSData) : M (bool * list string) :=
  nodelets <- Loader.listLoadedNodelets ;;
  ret (true, nodelets).

End Services.

End LoaderROS.

(* ================================================================== *)
(** ** Histories of calls on one [Loader] *)

Inductive Call : Type :=
| CallLoad (name type : string) (remappings : M_string) (my_argv : V_string)
           (bond : option Bond)
| CallUnload (name : string)
| CallClear
| CallList.

Inductive Reply : Type :=
| Flag (b : bool)
| Names (l : list string).

Definition call (c : Call) : M Reply :=
  match c with
  | CallLoad name type remappings my_argv bond =>
      b <- Loader.load name type remappings my_argv bond ;; ret (Flag b)
  | CallUnload name => b <- Loader.unload name ;; ret (Flag b)
  | CallClear => b <- Loader.clear ;; ret (Flag b)
  | CallList => l <- Loader.listLoadedNodelets ;; ret (Names l)
  end.

(** The calls of a history one after the other; a call that throws leaves
    the object as it was at the throw and the next call finds it so. *)
Fixpoint run (cs : list Call) (w : World) : list (Outcome Reply) * World :=
  match cs with
  | [] => ([], w)
  | c :: cs' =>
      let (r, w') := call c w in
      let (rs, w'') := run cs' w' in
      (r :: rs, w'')
  end.

(** A call that takes [name] out of the registry: [clear()], or an
    [unload(name)] that returned true. *)
Definition removes (name : string) (c : Call) (r : Outcome Reply) : bool :=
  match c, r with
  | CallClear, _ => true
  | CallUnload name', Returns (Flag true) => String.eqb name' name
  | _, _ => false
  end.

Fixpoint none_removes (name : string) (cs : list Call)
    (rs : list (Outcome Reply)) : bool :=
  match cs, rs with
  | c :: cs', r :: rs' => negb (removes name c r) && none_removes name cs' rs'
  | _, _ => true
  end.

(** The order the specification names for [listNames()]: the names of the
    entries in the order in which they were inserted. One call turns the
    order [order] of the map [before] into that of the map [after]. *)
Definition insertion_order_step (before after : M_stringToNodelet)
    (order : list string) : list string :=
  filter (fun k => (0 <? StdMap.count k after)%nat) order
  ++ filter (fun k => negb (0 <? StdMap.count k before)%nat) (StdMap.keys after).

Fixpoint insertion_order (cs : list Call) (w : World) (order : list string)
  : list string :=
  match cs with
  | [] => order
  | c :: cs' =>
      let w' := snd (call c w) in
      insertion_order cs' w'
        (insertion_order_step (nodelets_ (this w)) (nodelets_ (this w')) order)
  end.

(* ================================================================== *)
(** ** Threads calling [Loader::load] on one object

    [lock_] is a [boost::mutex]: a thread that reaches the [scoped_lock] of
    [load] while another thread holds [lock_] waits. A thread inside [load]
    is at its entry, past the [scoped_lock], past the test of
    [nodelets_.count(name)], or has left the method; a schedule names the
    thread that moves next. *)

Module Concurrent.

Inductive ThreadState : Type :=
| AtEntry
| HoldsLock
| Checked (exists_ : bool)
| Finished (r : Outcome bool).

Record LoadArgs : Type := mkLoadArgs {
  arg_name : string;
  arg_type : string;
  arg_remappings : M_string;
  arg_my_argv : V_string;
  arg_bond : option Bond
}.

Record System : Type := mkSystem {
  world : World;
  lock_ : option nat;
  threads : nat -> ThreadState
}.

Definition set_thread (i : nat) (t : ThreadState) (ts : nat -> ThreadState)
  : nat -> ThreadState :=
  fun j => if Nat.eqb j i then t else ts j.

Definition log (e : Event) (w : World) : World :=
  mkWorld (this w) (trace w ++ [e]).

(** Leaving the scope of the [scoped_lock] with outcome [r]. *)
Definition leave (i : nat) (r : Outcome bool) (w : World) (s : System)
  : System :=
  match r with
  | Aborts => mkSystem w (lock_ s) (set_thread i (Finished r) (threads s))
  | _ => mkSystem (log MutexUnlock w) None
                  (set_thread i (Finished r) (threads s))
  end.

(** Thread [i] takes its next step, if it can. *)
Definition step (args : nat -> LoadArgs) (i : nat) (s : System) : System :=
  let a := args i in
  match threads s i with
  | AtEntry =>
      match lock_ s with
      | None => mkSystem (log MutexLock (world s)) (Some i)
                         (set_thread i HoldsLock (threads s))
      | Some _ => s
      end
  | HoldsLock =>
      match Loader.load_name_exists (arg_name a) (world s) with
      | (Returns b, w') =>
          mkSystem w' (lock_ s) (set_thread i (Checked b) (threads s))
      | (Throws e, w') => leave i (Throws e) w' s
      | (Aborts, w') => leave i Aborts w' s
      end
  | Checked true =>
      let (r, w') :=
        (emit (ROS_ERROR
           "Cannot load nodelet %s for one exists with that name already"
           [arg_name a]) ;;
         ret false) (world s) in
      leave i r w' s
  | Checked false =>
      let (r, w') :=
        Loader.load_create (arg_name a) (arg_type a) (arg_remappings a)
                           (arg_my_argv a) (arg_bond a) (world s) in
      leave i r w' s
  | Finished _ => s
  end.

Definition exec (args : nat -> LoadArgs) (schedule : list nat) (s : System)
  : System :=
  fold_left (fun s i => step args i s) schedule s.

(** Every thread about to call [load] on the object in state [w]. *)
Definition init (w : World) : System := mkSystem w None (fun _ => AtEntry).

Definition succeeded (s : System) (i : nat) : Prop :=
  threads s i = Finished (Returns true).

(** What holds of every state the threads can reach: a thread past the
    [scoped_lock] and not yet out of the method owns [lock_]; a thread that
    found the name free still sees it free; the name of a load that
    returned true is in the map; two loads of one name did not both return
    true. *)
Definition Inv (args : nat -> LoadArgs) (s : System) : Prop :=
  (forall i, threads s i = HoldsLock \/ (exists b, threads s i = Checked b) ->
             lock_ s = Some i)
  /\ (forall i, threads s i = Checked false ->
                ~ In (arg_name (args i))
                     (StdMap.keys (nodelets_ (this (world s)))))
  /\ (forall i, succeeded s i ->
                In (arg_name (args i))
                   (StdMap.keys (nodelets_ (this (world s)))))
  /\ (forall i j, i <> j -> arg_name (args i) = arg_name (args j) ->
                  succeeded s i -> succeeded s j -> False).

End Concurrent.

(* ================================================================== *)
(** ** Observations used in the statements *)

(** What the plugin factory answers to the next [createClassInstance(type)]. *)
Definition next_instance (w : World) (type : string) : Outcome (option Nodelet) :=
  createClassInstance_ (loader_ (this w)) (calls (loader_ (this w))) type.

(** The events a computation added to the trace, from [w] to [w']. *)
Definition emitted (w w' : World) : list Event :=
  skipn (length (trace w)) (trace w').

Definition is_diagnostic (e : Event) : bool :=
  match e with
  | ROS_ERROR _ _ | ROS_INFO _ _ | ROS_DEBUG _ _ => true
  | _ => false
  end.

Definition is_NewCallbackQueue (e : Event) : bool :=
  match e with
  | NewCallbackQueue _ _ => true
  | _ => false
  end.

(** The remapping table of a [NodeletInit] event. *)
Definition init_remappings (e : Event) : option M_string :=
  match e with
  | NodeletInit _ _ remappings _ _ => Some remappings
  | _ => None
  end.

(** Some event satisfying [is_e1] occurs in [tr] and some event satisfying
    [is_e2] occurs later. *)
Fixpoint occurs_before (is_e1 is_e2 : Event -> bool) (tr : list Event) : bool :=
  match tr with
  | [] => false
  | e :: tr' => (is_e1 e && existsb is_e2 tr') || occurs_before is_e1 is_e2 tr'
  end.

Definition is_CallbackManagerStop (e : Event) : bool :=
  match e with CallbackManagerStop => true | _ => false end.
Definition is_CallbackManagerReset (e : Event) : bool :=
  match e with CallbackManagerReset => true | _ => false end.
Definition is_NodeletRelease (e : Event) : bool :=
  match e with NodeletRelease _ => true | _ => false end.

(** The object after the factory was asked once more. *)
Definition asked (w : World) : LoaderData :=
  set_loader (mkClassLoader (createClassInstance_ (loader_ (this w)))
                            (S (calls (loader_ (this w))))) (this w).

(** What [load] does with the bond once [init] has returned. *)
Definition bond_events (bond : option Bond) (name : string) : list Event :=
  match bond with
  | Some b => [BondSetBrokenCallback b name]
  | None => []
  end.

(** The answer of [listLoadedNodelets()] in state [w]. *)
Definition listed (w : World) : Outcome (list string) :=
  fst (Loader.listLoadedNodelets w).

(** What [serviceLoad] does with the bond once [load] has returned. *)
Definition bond_start_events (bond : option Bond) : list Event :=
  match bond with
  | Some b => [BondStart b]
  | None => []
  end.

(** What [serviceLoad] does with a new bond before it calls [load]. *)
Definition bond_queue_events (bond : option Bond) : list Event :=
  match bond with
  | Some b => [BondSetCallbackQueue b]
  | None => []
  end.

(** The bond [serviceLoad] creates for a request. *)
Definition request_bond (self : LoaderROSData) (req : NodeletLoadRequest)
  : option Bond :=
  if negb (String.eqb (req_bond_id req) "")
  then Some (mkBond (getNamespace (nh_ self) ++ "/bond") (req_bond_id req))
  else None.

(** The state in which [serviceLoad] calls [parent_->load] when the two
    remapping lists differ in length. *)
Definition at_load_call (self : LoaderROSData) (req : NodeletLoadRequest)
    (w : World) : World :=
  mkWorld (this w)
    (trace w
     ++ [ROS_ERROR
           "Bad remapppings provided, target and source of different length" []]
     ++ match request_bond self req with
        | Some b => [BondSetCallbackQueue b]
        | None => []
        end).

Definition is_NodeletDisable (e : Event) : bool :=
  match e with NodeletDisable _ => true | _ => false end.
Definition is_ROS_ERROR (e : Event) : bool :=
  match e with ROS_ERROR _ _ => true | _ => false end.
Definition is_BondStart (e : Event) : bool :=
  match e with BondStart _ => true | _ => false end.
Definition is_BondSetBrokenCallback (e : Event) : bool :=
  match e with BondSetBrokenCallback _ _ => true | _ => false end.
Definition is_bond_event (e : Event) : bool :=
  match e with
  | BondSetCallbackQueue _ | BondSetBrokenCallback _ _ | BondStart _ => true
  | _ => false
  end.

(** The resolved names at index [i] of a request's two remapping lists. *)
Definition remap_source (resolve : string -> option string)
    (req : NodeletLoadRequest) (i : nat) : option string :=
  resolve (nth i (remap_source_args req) "").
Definition remap_target (resolve : string -> option string)
    (req : NodeletLoadRequest) (i : nat) : option string :=
  resolve (nth i (remap_target_args req) "").

(** ** A sample plugin environment *)

Module Sample.

Definition well_behaved (n : nat) : Nodelet :=
  mkNodelet n (fun _ _ _ => None).

Definition init_fails (n : nat) : Nodelet :=
  mkNodelet n (fun _ _ _ => Some (PluginlibException "no such filter")).

Definition plugins : ClassLoader :=
  mkClassLoader
    (fun n type =>
       if String.eqb type "DriverType" then Returns (Some (well_behaved n))
       else if String.eqb type "FilterType" then Returns (Some (init_fails n))
       else if String.eqb type "NullType" then Returns None
       else Throws (PluginlibException "class not registered"))
    0.

Definition nh : NodeHandle := mkNodeHandle "/manager" (Some 4%Z).

(** A loader fresh from its constructor. *)
Definition fresh : World := snd (Loader.Loader_new plugins true nh).

(** The same after [load("cam", "DriverType", {}, {}, null)]. *)
Definition with_cam : World :=
  snd (Loader.load "cam" "DriverType" StdMap.empty [] None fresh).

Definition mismatched : NodeletLoadRequest :=
  mkNodeletLoadRequest "cam" "DriverType" ["in"; "out"] ["image"] [] "".

Definition remapped : NodeletLoadRequest :=
  mkNodeletLoadRequest "cam" "DriverType" ["out"; "in"; "out"]
    ["image"; "raw"; "image_rect"] [] "bond42".

(** A resolver that takes every name as it is, except that a name that
    starts with an exclamation mark is not a valid graph resource name. *)
Definition resolve_name (s : string) : option string :=
  match s with
  | String "!"%char _ => None
  | _ => Some s
  end.

Definition invalid_remap : NodeletLoadRequest :=
  mkNodeletLoadRequest "cam" "DriverType" ["in"; "!out"] ["raw"; "image"]
    [] "bond42".

Definition throwing (n : nat) : Nodelet :=
  mkNodelet n (fun _ _ _ => Some (OtherException "bad_alloc")).

Definition plugins' : ClassLoader :=
  mkClassLoader
    (fun n type =>
       if String.eqb type "DriverType" then Returns (Some (well_behaved n))
       else if String.eqb type "ThrowingType" then Returns (Some (throwing n))
       else Throws (OtherException "out of memory"))
    0.

Definition fresh' : World := snd (Loader.Loader_new plugins' false nh).

End Sample.

(* ================================================================== *)
(** * Properties *)

(** ** Facts about [StdMap] *)

Section StdMapFacts.

Context {V : Type}.
Implicit Types (m : StdMap.t V) (k : string) (v : V).

Lemma key_lt_trans a b c :
  StdMap.key_lt a b -> StdMap.key_lt b c -> StdMap.key_lt a c.
Proof.
  unfold StdMap.key_lt. intros Hab Hbc.
  apply String_as_OT.cmp_lt in Hab, Hbc. apply String_as_OT.cmp_lt.
  eapply String_as_OT.lt_trans; eassumption.
Qed.

Lemma compare_refl a : String.compare a a = Eq.
Proof. now apply String_as_OT.cmp_eq. Qed.

Lemma key_lt_neq a b : StdMap.key_lt a b -> a <> b.
Proof.
  unfold StdMap.key_lt. intros H ->. rewrite compare_refl in H. discriminate.
Qed.

Lemma compare_Gt a b : String.compare a b = Gt -> StdMap.key_lt b a.
Proof.
  unfold StdMap.key_lt. intros H. rewrite String.compare_antisym, H. reflexivity.
Qed.

Lemma compare_Gt_neq a b : String.compare a b = Gt -> a <> b.
Proof. intros H ->. rewrite compare_refl in H. discriminate. Qed.

Lemma find_assign_same k v m : StdMap.find k (StdMap.assign k v m) = Some v.
Proof.
  induction m as [|[k' v'] m IH]; simpl.
  - now rewrite String.eqb_refl.
  - destruct (String.compare k k') eqn:E; simpl.
    + now rewrite String.eqb_refl.
    + now rewrite String.eqb_refl.
    + apply compare_Gt_neq in E. apply String.eqb_neq in E. now rewrite E.
Qed.

Lemma find_assign_other k k' v m :
  k <> k' -> StdMap.find k' (StdMap.assign k v m) = StdMap.find k' m.
Proof.
  intros Hne. assert (Hb : String.eqb k' k = false)
    by (apply String.eqb_neq; congruence).
  induction m as [|[k0 v0] m IH]; simpl.
  - now rewrite Hb.
  - destruct (String.compare k k0) eqn:E; simpl.
    + apply String.compare_eq_iff in E. subst k0. now rewrite Hb.
    + now rewrite Hb.
    + now rewrite IH.
Qed.

Lemma find_erase_other k k' m :
  k <> k' -> StdMap.find k' (StdMap.erase k m) = StdMap.find k' m.
Proof.
  intros Hne. induction m as [|[k0 v0] m IH]; simpl; [reflexivity|].
  destruct (String.eqb k k0) eqn:E.
  - apply String.eqb_eq in E. subst k0.
    assert (Hb : String.eqb k' k = false) by (apply String.eqb_neq; congruence).
    now rewrite Hb.
  - simpl. now rewrite IH.
Qed.

Lemma find_None_not_In k m :
  StdMap.find k m = None <-> ~ In k (StdMap.keys m).
Proof.
  induction m as [|[k0 v0] m IH]; simpl.
  - tauto.
  - destruct (String.eqb k k0) eqn:E.
    + apply String.eqb_eq in E. subst. split; [discriminate | tauto].
    + apply String.eqb_neq in E. rewrite IH. split.
      * intros H [H1 | H1]; [congruence | tauto].
      * tauto.
Qed.

Lemma count_pos_In k m :
  (0 <? StdMap.count k m)%nat = true <-> In k (StdMap.keys m).
Proof.
  unfold StdMap.count. destruct (StdMap.find k m) eqn:E; simpl.
  - split; [intros _ | reflexivity].
    destruct (in_dec string_dec k (StdMap.keys m)) as [H | H]; [exact H|].
    apply find_None_not_In in H. congruence.
  - split; [discriminate|]. intros H. apply find_None_not_In in E. tauto.
Qed.

Lemma count_zero_not_In k m :
  (0 <? StdMap.count k m)%nat = false <-> ~ In k (StdMap.keys m).
Proof.
  rewrite <- count_pos_In. destruct (0 <? StdMap.count k m)%nat; split;
    congruence.
Qed.

Lemma wf_tail k v m : StdMap.wf ((k, v) :: m) -> StdMap.wf m.
Proof. unfold StdMap.wf; simpl. intros H. now inversion H. Qed.

Lemma wf_head_lt k v m k' :
  StdMap.wf ((k, v) :: m) -> In k' (StdMap.keys m) -> StdMap.key_lt k k'.
Proof.
  unfold StdMap.wf; simpl. intros H Hin. inversion H as [|? ? _ Hall]; subst.
  rewrite Forall_forall in Hall. now apply Hall.
Qed.

Lemma wf_NoDup m : StdMap.wf m -> NoDup (StdMap.keys m).
Proof.
  induction m as [|[k v] m IH]; simpl; intros H; constructor.
  - intros Hin. apply (wf_head_lt _ _ _ _ H) in Hin.
    now apply key_lt_neq in Hin.
  - apply IH. eapply wf_tail; eassumption.
Qed.

Lemma keys_assign_In k v m k' :
  In k' (StdMap.keys (StdMap.assign k v m)) <-> k' = k \/ In k' (StdMap.keys m).
Proof.
  induction m as [|[k0 v0] m IH]; simpl.
  - intuition.
  - destruct (String.compare k k0) eqn:E; simpl.
    + apply String.compare_eq_iff in E. subst. intuition.
    + intuition.
    + rewrite IH. intuition.
Qed.

Lemma wf_assign k v m : StdMap.wf m -> StdMap.wf (StdMap.assign k v m).
Proof.
  induction m as [|[k0 v0] m IH]; intros Hwf.
  - unfold StdMap.wf; simpl. repeat constructor.
  - simpl. destruct (String.compare k k0) eqn:E.
    + apply String.compare_eq_iff in E. subst k0. exact Hwf.
    + unfold StdMap.wf in *; simpl in *. constructor; [exact Hwf|].
      constructor; [exact E|]. inversion Hwf as [|? ? _ Hall]; subst.
      eapply Forall_impl; [|exact Hall]. intros a Ha.
      eapply key_lt_trans; eassumption.
    + assert (Hwf' := IH (wf_tail _ _ _ Hwf)).
      unfold StdMap.wf in *; simpl in *. constructor; [exact Hwf'|].
      apply Forall_forall. intros x Hx. apply keys_assign_In in Hx.
      destruct Hx as [-> | Hx].
      * now apply compare_Gt.
      * inversion Hwf as [|? ? _ Hall]; subst.
        rewrite Forall_forall in Hall. now apply Hall.
Qed.

Lemma keys_erase_incl k m k' :
  In k' (StdMap.keys (StdMap.erase k m)) -> In k' (StdMap.keys m).
Proof.
  induction m as [|[k0 v0] m IH]; simpl; [tauto|].
  destruct (String.eqb k k0); simpl; intuition.
Qed.

Lemma wf_erase k m : StdMap.wf m -> StdMap.wf (StdMap.erase k m).
Proof.
  induction m as [|[k0 v0] m IH]; intros Hwf; simpl; [exact Hwf|].
  destruct (String.eqb k k0).
  - eapply wf_tail; eassumption.
  - assert (Hwf' := IH (wf_tail _ _ _ Hwf)).
    unfold StdMap.wf in *; simpl in *. constructor; [exact Hwf'|].
    inversion Hwf as [|? ? _ Hall]; subst. rewrite Forall_forall in *.
    intros x Hx. apply Hall. eapply keys_erase_incl; eassumption.
Qed.

Lemma find_erase_same k m :
  StdMap.wf m -> StdMap.find k (StdMap.erase k m) = None.
Proof.
  induction m as [|[k0 v0] m IH]; intros Hwf; simpl; [reflexivity|].
  destruct (String.eqb k k0) eqn:E.
  - apply String.eqb_eq in E. subst k0. apply find_None_not_In.
    intros Hin. apply (wf_head_lt _ _ _ _ Hwf) in Hin.
    now apply key_lt_neq in Hin.
  - simpl. rewrite E. apply IH. eapply wf_tail; eassumption.
Qed.

Lemma keys_erase k m :
  StdMap.wf m ->
  StdMap.keys (StdMap.erase k m)
  = filter (fun k' => negb (String.eqb k k')) (StdMap.keys m).
Proof.
  induction m as [|[k0 v0] m IH]; intros Hwf; simpl; [reflexivity|].
  destruct (String.eqb k k0) eqn:E; simpl.
  - apply String.eqb_eq in E. subst k0. symmetry.
    apply forallb_filter_id. apply forallb_forall. intros x Hx.
    apply (wf_head_lt _ _ _ _ Hwf) in Hx. apply key_lt_neq in Hx.
    apply String.eqb_neq in Hx. now rewrite Hx.
  - f_equal. apply IH. eapply wf_tail; eassumption.
Qed.

Lemma count_occ_keys k m :
  StdMap.wf m -> count_occ string_dec (StdMap.keys m) k = StdMap.count k m.
Proof.
  intros Hwf. apply wf_NoDup in Hwf.
  unfold StdMap.count. destruct (StdMap.find k m) eqn:E.
  - assert (Hin : In k (StdMap.keys m)).
    { destruct (in_dec string_dec k (StdMap.keys m)) as [H | H]; [exact H|].
      apply find_None_not_In in H. congruence. }
    rewrite (NoDup_count_occ' string_dec) in Hwf. now apply Hwf.
  - apply find_None_not_In in E. now apply count_occ_not_In.
Qed.

Lemma push_back_keys m acc :
  fold_left (fun output (it : string * V) => output ++ [fst it]) m acc
  = acc ++ StdMap.keys m.
Proof.
  revert acc. induction m as [|e m IH]; intros acc; simpl.
  - now rewrite app_nil_r.
  - rewrite IH, <- app_assoc. reflexivity.
Qed.

End StdMapFacts.

(** ** The methods of [Loader], case by case *)

Ltac unfold_M :=
  unfold scoped_lock, try_catch_PluginlibException, bind, ret, get, put, emit,
    throw, abort in *.

Ltac app_norm := repeat rewrite <- app_assoc; simpl.

Lemma emitted_app w l tr : emitted w (mkWorld l (trace w ++ tr)) = tr.
Proof.
  unfold emitted; simpl. rewrite skipn_app, skipn_all, Nat.sub_diag.
  reflexivity.
Qed.

Lemma load_create_eq w name type remappings my_argv bond :
  Loader.load_create name type remappings my_argv bond w
  = match next_instance w type with
    | Returns None =>
        (Returns false, mkWorld (asked w) (trace w ++ [CreateClassInstance type]))
    | Returns (Some p) =>
        let l := set_nodelets (StdMap.assign name p (nodelets_ (this w))) (asked w) in
        let tr := [CreateClassInstance type;
                   ROS_DEBUG "Done loading nodelet %s" [name];
                   NewCallbackQueue p st_callback_queue_;
                   NewCallbackQueue p mt_callback_queue_;
                   NodeletInit p name remappings my_argv bond] in
        match init_throws p name remappings my_argv with
        | None =>
            (Returns true,
             mkWorld l (trace w ++ tr ++ bond_events bond name
                        ++ [ROS_DEBUG "Done initing nodelet %s" [name]]))
        | Some (PluginlibException what) =>
            (Returns false,
             mkWorld l (trace w ++ tr ++
               [ROS_ERROR "Failed to load nodelet [%s] of type [%s]: %s"
                          [name; type; what]]))
        | Some (OtherException what) =>
            (Throws (OtherException what), mkWorld l (trace w ++ tr))
        end
    | Throws (PluginlibException what) =>
        (Returns false,
         mkWorld (asked w)
           (trace w ++ [CreateClassInstance type;
              ROS_ERROR "Failed to load nodelet [%s] of type [%s]: %s"
                        [name; type; what]]))
    | Throws (OtherException what) =>
        (Throws (OtherException what),
         mkWorld (asked w) (trace w ++ [CreateClassInstance type]))
    | Aborts =>
        (Aborts, mkWorld (asked w) (trace w ++ [CreateClassInstance type]))
    end.
Proof.
  unfold Loader.load_create, Loader.createClassInstance, Loader.Nodelet_init,
    next_instance, asked.
  unfold_M. simpl.
  destruct (createClassInstance_ _ _ _) as [[p|]|[what|what]|]; simpl;
    try (app_norm; reflexivity).
  destruct (init_throws p _ _ _) as [[what|what]|]; simpl;
    try (app_norm; reflexivity).
  destruct bond; simpl; app_norm; reflexivity.
Qed.

Lemma load_eq w name type remappings my_argv bond :
  Loader.load name type remappings my_argv bond w
  = if (0 <? StdMap.count name (nodelets_ (this w)))%nat then
      (Returns false,
       mkWorld (this w)
         (trace w ++
          [MutexLock;
           ROS_ERROR "Cannot load nodelet %s for one exists with that name already"
                     [name];
           MutexUnlock]))
    else
      match Loader.load_create name type remappings my_argv bond
              (mkWorld (this w) (trace w ++ [MutexLock])) with
      | (Aborts, w') => (Aborts, w')
      | (r, w') => (r, mkWorld (this w') (trace w' ++ [MutexUnlock]))
      end.
Proof.
  unfold Loader.load, Loader.load_name_exists. unfold_M. simpl.
  destruct (0 <? StdMap.count name (nodelets_ (this w)))%nat; simpl.
  - app_norm. reflexivity.
  - reflexivity.
Qed.

Lemma unload_eq w name :
  Loader.unload name w
  = match StdMap.find name (nodelets_ (this w)) with
    | Some p =>
        (Returns true,
         mkWorld (set_nodelets (StdMap.erase name (nodelets_ (this w))) (this w))
           (trace w ++
            [MutexLock; NodeletDisable p; NodeletRelease p;
             ROS_DEBUG "Done unloading nodelet %s" [name]; MutexUnlock]))
    | None =>
        (Returns false, mkWorld (this w) (trace w ++ [MutexLock; MutexUnlock]))
    end.
Proof.
  unfold Loader.unload. unfold_M. simpl.
  destruct (StdMap.find name (nodelets_ (this w))); simpl; app_norm;
    reflexivity.
Qed.

Lemma for_each_emit {A} (f : A -> Event) (l : list A) w :
  for_each (fun a => emit (f a)) l w
  = (Returns tt, mkWorld (this w) (trace w ++ map f l)).
Proof.
  revert w. induction l as [|a l IH]; intros w; simpl.
  - unfold ret. rewrite app_nil_r. now destruct w.
  - unfold bind at 1. unfold emit at 1. rewrite IH. simpl. app_norm.
    reflexivity.
Qed.

Lemma nodelets_clear_eq w :
  Loader.nodelets_clear w
  = (Returns tt,
     mkWorld (set_nodelets StdMap.empty (this w))
       (trace w
        ++ map (fun e => NodeletRelease (snd e)) (rev (nodelets_ (this w))))).
Proof.
  unfold Loader.nodelets_clear. unfold bind at 1. unfold get at 1.
  unfold bind at 1. rewrite for_each_emit. unfold_M. simpl. reflexivity.
Qed.

Lemma clear_eq w :
  Loader.clear w
  = (Returns true,
     mkWorld (set_nodelets StdMap.empty (this w))
       (trace w ++ [MutexLock]
        ++ map (fun e => NodeletRelease (snd e)) (rev (nodelets_ (this w)))
        ++ [MutexUnlock])).
Proof.
  unfold Loader.clear, scoped_lock. unfold bind. rewrite nodelets_clear_eq.
  unfold ret. simpl. app_norm. reflexivity.
Qed.

Lemma listLoadedNodelets_eq w :
  Loader.listLoadedNodelets w
  = (Returns (StdMap.keys (nodelets_ (this w))),
     mkWorld (this w) (trace w ++ [MutexLock; MutexUnlock])).
Proof.
  unfold Loader.listLoadedNodelets. unfold_M. simpl.
  rewrite push_back_keys. simpl. app_norm. reflexivity.
Qed.

(** [load] leaves the map as it was or adds one entry under [name]; it
    returns true only in the second case. *)
Lemma load_nodelets w name type remappings my_argv bond :
  let r := Loader.load name type remappings my_argv bond w in
  (nodelets_ (this (snd r)) = nodelets_ (this w) /\ fst r <> Returns true)
  \/ ((0 <? StdMap.count name (nodelets_ (this w)))%nat = false
      /\ exists p, nodelets_ (this (snd r))
                   = StdMap.assign name p (nodelets_ (this w))).
Proof.
  cbv zeta. rewrite load_eq.
  destruct (0 <? StdMap.count name (nodelets_ (this w)))%nat eqn:Hc.
  - left. simpl. split; [reflexivity | discriminate].
  - rewrite load_create_eq. unfold next_instance; simpl.
    destruct (createClassInstance_ _ _ _) as [[p|]|[what|what]|]; simpl;
      try (left; split; [reflexivity | discriminate]).
    right. split; [reflexivity|]. exists p.
    destruct (init_throws p _ _ _) as [[what|what]|]; reflexivity.
Qed.

Lemma load_true w name type remappings my_argv bond w' :
  Loader.load name type remappings my_argv bond w = (Returns true, w') ->
  (0 <? StdMap.count name (nodelets_ (this w)))%nat = false
  /\ exists p, nodelets_ (this w') = StdMap.assign name p (nodelets_ (this w)).
Proof.
  intros H. pose proof (load_nodelets w name type remappings my_argv bond) as L.
  cbv zeta in L. rewrite H in L. simpl in L.
  destruct L as [[_ L] | L]; [congruence | exact L].
Qed.

(* ================================================================== *)
(** ** Failed loads *)

(** C1: the code breaks it when the nodelet's [init] throws a
    [PluginlibException]. The entry is stored before [init] is called and
    the [catch] clause does not erase it: [load] returns false, and the map
    afterwards holds the new instance under the requested name, which was
    absent before. The factory-exception and null-instance paths, by
    contrast, leave no entry ([load_failure_leaves_map] below). *)
Theorem load_init_failure_keeps_entry w name type remappings my_argv bond p what :
  StdMap.count name (nodelets_ (this w)) = 0 ->
  next_instance w type = Returns (Some p) ->
  init_throws p name remappings my_argv = Some (PluginlibException what) ->
  let r := Loader.load name type remappings my_argv bond w in
  fst r = Returns false
  /\ nodelets_ (this (snd r)) = StdMap.assign name p (nodelets_ (this w))
  /\ StdMap.find name (nodelets_ (this (snd r))) = Some p
  /\ StdMap.count name (nodelets_ (this (snd r))) = 1
  /\ emitted w (snd r)
     = [MutexLock; CreateClassInstance type;
        ROS_DEBUG "Done loading nodelet %s" [name];
        NewCallbackQueue p st_callback_queue_;
        NewCallbackQueue p mt_callback_queue_;
        NodeletInit p name remappings my_argv bond;
        ROS_ERROR "Failed to load nodelet [%s] of type [%s]: %s"
                  [name; type; what];
        MutexUnlock].
Proof.
  intros Hz Hn Hi. cbv zeta. rewrite load_eq, Hz. simpl (0 <? 0)%nat. cbv iota.
  rewrite load_create_eq.
  replace (next_instance (mkWorld (this w) (trace w ++ [MutexLock])) type)
    with (next_instance w type) by reflexivity.
  rewrite Hn. cbv zeta. rewrite Hi. simpl. app_norm. rewrite emitted_app.
  unfold StdMap.count. rewrite find_assign_same. repeat split; reflexivity.
Qed.

Lemma load_init_failure_keeps_entry_witness :
  let r := Loader.load "flt" "FilterType" StdMap.empty [] None Sample.with_cam in
  StdMap.count "flt" (nodelets_ (this Sample.with_cam)) = 0
  /\ fst r = Returns false
  /\ StdMap.count "flt" (nodelets_ (this (snd r))) = 1
  /\ StdMap.keys (nodelets_ (this (snd r))) = ["cam"; "flt"].
Proof.
  destruct (load_init_failure_keeps_entry Sample.with_cam "flt" "FilterType"
              StdMap.empty [] None (Sample.init_fails 1) "no such filter")
    as (H1 & H2 & _ & H3 & _).
  - vm_compute; reflexivity.
  - vm_compute; reflexivity.
  - vm_compute; reflexivity.
  - cbv zeta in *. split; [vm_compute; reflexivity|].
    split; [exact H1|]. split; [exact H3|].
    rewrite H2. vm_compute. reflexivity.
Defined.

(** The other loads that return false: one refused because the name is
    taken, one whose factory call threw a [PluginlibException], one whose
    factory call returned a null instance. Each leaves the registry map
    exactly as it was, so no entry under a name that was absent; the only
    remaining load that returns false is the one whose [init] threw. *)
Theorem load_failure_leaves_map w name type remappings my_argv bond :
  let r := Loader.load name type remappings my_argv bond w in
  fst r = Returns false ->
  (((0 <? StdMap.count name (nodelets_ (this w)))%nat = true
    \/ next_instance w type = Returns None
    \/ (exists what, next_instance w type = Throws (PluginlibException what)))
   /\ nodelets_ (this (snd r)) = nodelets_ (this w)
   /\ (StdMap.count name (nodelets_ (this w)) = 0 ->
       StdMap.count name (nodelets_ (this (snd r))) = 0))
  \/ (exists p what,
        StdMap.count name (nodelets_ (this w)) = 0
        /\ next_instance w type = Returns (Some p)
        /\ init_throws p name remappings my_argv
           = Some (PluginlibException what)).
Proof.
  cbv zeta. rewrite load_eq.
  destruct (0 <? StdMap.count name (nodelets_ (this w)))%nat eqn:Hc.
  - intros _. left. simpl. auto.
  - rewrite load_create_eq.
    replace (next_instance (mkWorld (this w) (trace w ++ [MutexLock])) type)
      with (next_instance w type) by reflexivity.
    assert (Hz : StdMap.count name (nodelets_ (this w)) = 0).
    { apply Nat.ltb_ge in Hc. lia. }
    destruct (next_instance w type) as [[p|]|[what|what]|] eqn:Hn; simpl.
    + destruct (init_throws p name remappings my_argv) as [[what|what]|] eqn:Hi;
        simpl; try discriminate.
      intros _. right. exists p, what. auto.
    + intros _. left. auto.
    + intros _. left. repeat split; auto. right; right. now exists what.
    + discriminate.
    + discriminate.
Qed.

Lemma load_failure_leaves_map_witness :
  let r := Loader.load "flt" "NullType" StdMap.empty [] None Sample.with_cam in
  (((0 <? StdMap.count "flt" (nodelets_ (this Sample.with_cam)))%nat = true
    \/ next_instance Sample.with_cam "NullType" = Returns None
    \/ (exists what, next_instance Sample.with_cam "NullType"
                     = Throws (PluginlibException what)))
   /\ nodelets_ (this (snd r)) = nodelets_ (this Sample.with_cam)
   /\ (StdMap.count "flt" (nodelets_ (this Sample.with_cam)) = 0 ->
       StdMap.count "flt" (nodelets_ (this (snd r))) = 0))
  \/ (exists p what,
        StdMap.count "flt" (nodelets_ (this Sample.with_cam)) = 0
        /\ next_instance Sample.with_cam "NullType" = Returns (Some p)
        /\ init_throws p "flt" StdMap.empty [] = Some (PluginlibException what)).
Proof.
  apply (load_failure_leaves_map Sample.with_cam "flt" "NullType" StdMap.empty
           [] None).
  vm_compute; reflexivity.
Defined.

(** C10: when the factory returns a null instance, [load] returns false with
    the map untouched, having created no callback queue and written no
    diagnostic; when the factory throws a [PluginlibException], [load] also
    returns false but writes a [ROS_ERROR]. *)
Theorem load_null_instance_silent w name type remappings my_argv bond :
  StdMap.count name (nodelets_ (this w)) = 0 ->
  let r := Loader.load name type remappings my_argv bond w in
  (next_instance w type = Returns None ->
     fst r = Returns false
     /\ nodelets_ (this (snd r)) = nodelets_ (this w)
     /\ emitted w (snd r) = [MutexLock; CreateClassInstance type; MutexUnlock]
     /\ existsb is_NewCallbackQueue (emitted w (snd r)) = false
     /\ existsb is_diagnostic (emitted w (snd r)) = false)
  /\ (forall what, next_instance w type = Throws (PluginlibException what) ->
     fst r = Returns false
     /\ emitted w (snd r)
        = [MutexLock; CreateClassInstance type;
           ROS_ERROR "Failed to load nodelet [%s] of type [%s]: %s"
                     [name; type; what];
           MutexUnlock]
     /\ existsb is_diagnostic (emitted w (snd r)) = true).
Proof.
  intros Hc. cbv zeta. rewrite load_eq, Hc. simpl (0 <? 0)%nat. cbv iota.
  rewrite load_create_eq.
  replace (next_instance (mkWorld (this w) (trace w ++ [MutexLock])) type)
    with (next_instance w type) by reflexivity.
  split.
  - intros H. rewrite H. simpl. app_norm. rewrite emitted_app.
    repeat split; reflexivity.
  - intros what H. rewrite H. simpl. app_norm. rewrite emitted_app.
    repeat split; reflexivity.
Qed.

Lemma load_null_instance_silent_witness :
  let r := Loader.load "flt" "NullType" StdMap.empty [] None Sample.with_cam in
  fst r = Returns false
  /\ nodelets_ (this (snd r)) = nodelets_ (this Sample.with_cam)
  /\ emitted Sample.with_cam (snd r)
     = [MutexLock; CreateClassInstance "NullType"; MutexUnlock]
  /\ existsb is_NewCallbackQueue (emitted Sample.with_cam (snd r)) = false
  /\ existsb is_diagnostic (emitted Sample.with_cam (snd r)) = false.
Proof.
  apply (load_null_instance_silent Sample.with_cam "flt" "NullType"
           StdMap.empty [] None).
  - vm_compute; reflexivity.
  - vm_compute; reflexivity.
Defined.

(* ================================================================== *)
(** ** Unloading *)

(** C8: [unload] of a name that is not in the map returns false and leaves
    every member of the loader as it was. *)
Theorem unload_absent w name :
  StdMap.count name (nodelets_ (this w)) = 0 ->
  let r := Loader.unload name w in
  fst r = Returns false
  /\ this (snd r) = this w
  /\ existsb (fun e => match e with
                       | NodeletDisable _ | NodeletRelease _ => true
                       | _ => false
                       end) (emitted w (snd r)) = false.
Proof.
  intros Hc. cbv zeta. rewrite unload_eq. unfold StdMap.count in Hc.
  destruct (StdMap.find name (nodelets_ (this w))); [discriminate|].
  simpl. rewrite emitted_app. auto.
Qed.

Lemma unload_absent_witness :
  let r := Loader.unload "lidar" Sample.with_cam in
  fst r = Returns false
  /\ this (snd r) = this Sample.with_cam
  /\ existsb (fun e => match e with
                       | NodeletDisable _ | NodeletRelease _ => true
                       | _ => false
                       end) (emitted Sample.with_cam (snd r)) = false.
Proof.
  apply (unload_absent Sample.with_cam "lidar"). vm_compute; reflexivity.
Defined.

(** C9: [unload] of a name that is in the map calls [disable] on its nodelet,
    then removes the entry and returns true; afterwards the name is not among
    the listed names and every other entry is as before. *)
Theorem unload_present w name p :
  StdMap.wf (nodelets_ (this w)) ->
  StdMap.find name (nodelets_ (this w)) = Some p ->
  let r := Loader.unload name w in
  fst r = Returns true
  /\ emitted w (snd r)
     = [MutexLock; NodeletDisable p; NodeletRelease p;
        ROS_DEBUG "Done unloading nodelet %s" [name]; MutexUnlock]
  /\ nodelets_ (this (snd r)) = StdMap.erase name (nodelets_ (this w))
  /\ (exists l, listed (snd r) = Returns l /\ ~ In name l
        /\ l = filter (fun k => negb (String.eqb name k))
                      (StdMap.keys (nodelets_ (this w))))
  /\ (forall k, k <> name ->
        StdMap.find k (nodelets_ (this (snd r)))
        = StdMap.find k (nodelets_ (this w))).
Proof.
  intros Hwf Hf. cbv zeta. rewrite unload_eq, Hf. simpl.
  rewrite emitted_app. repeat split.
  - unfold listed. rewrite listLoadedNodelets_eq. simpl.
    eexists. split; [reflexivity|]. split.
    + apply find_None_not_In. now apply find_erase_same.
    + now apply keys_erase.
  - intros k Hk. apply find_erase_other. congruence.
Qed.

Lemma unload_present_witness :
  let r := Loader.unload "cam" Sample.with_cam in
  fst r = Returns true
  /\ emitted Sample.with_cam (snd r)
     = [MutexLock; NodeletDisable (Sample.well_behaved 0);
        NodeletRelease (Sample.well_behaved 0);
        ROS_DEBUG "Done unloading nodelet %s" ["cam"]; MutexUnlock]
  /\ nodelets_ (this (snd r))
     = StdMap.erase "cam" (nodelets_ (this Sample.with_cam))
  /\ (exists l, listed (snd r) = Returns l /\ ~ In "cam" l
        /\ l = filter (fun k => negb (String.eqb "cam" k))
                      (StdMap.keys (nodelets_ (this Sample.with_cam))))
  /\ (forall k, k <> "cam" ->
        StdMap.find k (nodelets_ (this (snd r)))
        = StdMap.find k (nodelets_ (this Sample.with_cam))).
Proof.
  apply (unload_present Sample.with_cam "cam" (Sample.well_behaved 0)).
  - vm_compute. repeat constructor.
  - vm_compute; reflexivity.
Defined.

(* ================================================================== *)
(** ** Teardown *)

Lemma occurs_before_app p q a b :
  occurs_before p q (a ++ b)
  = occurs_before p q a || (existsb p a && existsb q b) || occurs_before p q b.
Proof.
  induction a as [|e a IH]; simpl; [reflexivity|].
  rewrite IH, existsb_app.
  destruct (p e), (existsb q a), (existsb q b), (occurs_before p q a),
    (existsb p a), (occurs_before p q b); reflexivity.
Qed.

Lemma occurs_before_none_l p q tr :
  existsb p tr = false -> occurs_before p q tr = false.
Proof.
  induction tr as [|e tr IH]; simpl; [reflexivity|].
  intros H. apply orb_false_elim in H. destruct H as [H1 H2].
  now rewrite H1, IH.
Qed.

Lemma occurs_before_none_r p q tr :
  existsb q tr = false -> occurs_before p q tr = false.
Proof.
  induction tr as [|e tr IH]; simpl; [reflexivity|].
  intros H. apply orb_false_elim in H. destruct H as [H1 H2].
  rewrite H2, IH by assumption. now rewrite andb_false_r.
Qed.

Lemma releases_only {A} (f : A -> NodeletPtr) (l : list A) :
  let tr := map (fun e => NodeletRelease (f e)) l in
  existsb is_CallbackManagerStop tr = false
  /\ existsb is_CallbackManagerReset tr = false
  /\ existsb is_NodeletRelease tr = negb (Nat.eqb (length l) 0).
Proof.
  induction l as [|a l IH]; simpl; [repeat split; reflexivity|].
  simpl in IH. destruct IH as (H1 & H2 & H3).
  rewrite H1, H2. repeat split; reflexivity.
Qed.

(** C2: the destructor stops the callback manager, then clears the map of
    nodelets, then releases the callback manager, in this order: no nodelet
    is released before the manager is stopped, and the manager is not
    released before the nodelets are. When the map is cleared the manager
    is stopped and still allocated. *)
Theorem teardown_order w cm :
  callback_manager_ (this w) = Some cm ->
  let r := Loader.Loader_delete w in
  let tr := emitted w (snd r) in
  fst r = Returns tt
  /\ (exists released,
        tr = [ServicesReset; CallbackManagerStop] ++ released
             ++ [CallbackManagerReset]
        /\ Permutation released
             (map (fun e => NodeletRelease (snd e)) (nodelets_ (this w))))
  /\ (exists w1 w2 w3,
        Loader.services_reset w = (Returns tt, w1)
        /\ Loader.callback_manager_stop w1 = (Returns tt, w2)
        /\ Loader.nodelets_clear w2 = (Returns tt, w3)
        /\ Loader.callback_manager_reset w3 = (Returns tt, snd r)
        /\ callback_manager_ (this w2)
           = Some (mkCallbackQueueManager (num_threads cm) false)
        /\ nodelets_ (this w2) = nodelets_ (this w)
        /\ callback_manager_ (this w3) = callback_manager_ (this w2)
        /\ nodelets_ (this w3) = StdMap.empty
        /\ callback_manager_ (this (snd r)) = None
        /\ nodelets_ (this (snd r)) = StdMap.empty)
  /\ occurs_before is_CallbackManagerStop is_CallbackManagerReset tr = true
  /\ occurs_before is_CallbackManagerReset is_CallbackManagerStop tr = false
  /\ occurs_before is_NodeletRelease is_CallbackManagerStop tr = false
  /\ occurs_before is_CallbackManagerReset is_NodeletRelease tr = false
  /\ (nodelets_ (this w) <> [] ->
      occurs_before is_CallbackManagerStop is_NodeletRelease tr = true
      /\ occurs_before is_NodeletRelease is_CallbackManagerReset tr = true).
Proof.
  intros Hcm. cbv zeta.
  assert (E : Loader.Loader_delete w
    = (Returns tt,
       mkWorld (mkLoader (loader_ (this w)) None None StdMap.empty)
         (trace w ++ [ServicesReset; CallbackManagerStop]
          ++ map (fun e => NodeletRelease (snd e)) (rev (nodelets_ (this w)))
          ++ [CallbackManagerReset]))).
  { unfold Loader.Loader_delete, Loader.services_reset,
      Loader.callback_manager_stop, Loader.callback_manager_reset.
    unfold bind at 1. unfold bind at 1. unfold bind at 1.
    unfold get at 1, put at 1, emit at 1. simpl.
    unfold bind at 1. unfold bind at 1. unfold get at 1. simpl.
    rewrite Hcm. unfold bind at 1. unfold emit at 1, put at 1. simpl.
    unfold bind at 1. rewrite nodelets_clear_eq. unfold_M. simpl.
    app_norm. reflexivity. }
  rewrite E. simpl fst. simpl snd. rewrite emitted_app.
  split; [reflexivity|]. split.
  { eexists. split; [reflexivity|].
    apply Permutation_map, Permutation_sym, Permutation_rev. }
  split.
  - eexists _, _, _. split.
    { unfold Loader.services_reset. unfold_M. simpl. reflexivity. }
    split.
    { unfold Loader.callback_manager_stop. unfold_M. simpl. rewrite Hcm.
      simpl. reflexivity. }
    split; [apply nodelets_clear_eq|]. split.
    { unfold Loader.callback_manager_reset. unfold_M. simpl. app_norm.
      reflexivity. }
    simpl. repeat split; reflexivity.
  - pose proof (releases_only (@snd string NodeletPtr)
                  (rev (nodelets_ (this w)))) as R.
    cbv zeta in R. destruct R as (H1 & H2 & H3). rewrite length_rev in H3.
    simpl. rewrite !occurs_before_app, !existsb_app. simpl.
    rewrite H1, H2, H3.
    repeat match goal with
    | |- context [occurs_before ?p ?q (map ?f ?l)] =>
        first [ rewrite (occurs_before_none_l p q (map f l)) by assumption
              | rewrite (occurs_before_none_r p q (map f l)) by assumption ]
    end.
    simpl. rewrite !andb_false_r.
    repeat split; try reflexivity;
      destruct (nodelets_ (this w)); simpl; congruence.
Qed.

Lemma teardown_order_witness :
  let r := Loader.Loader_delete Sample.with_cam in
  let tr := emitted Sample.with_cam (snd r) in
  fst r = Returns tt
  /\ occurs_before is_CallbackManagerStop is_NodeletRelease tr = true
  /\ occurs_before is_NodeletRelease is_CallbackManagerReset tr = true
  /\ occurs_before is_NodeletRelease is_CallbackManagerStop tr = false
  /\ occurs_before is_CallbackManagerReset is_NodeletRelease tr = false.
Proof.
  destruct (teardown_order Sample.with_cam (mkCallbackQueueManager (Some 4%Z) true))
    as (H1 & _ & _ & _ & _ & H2 & H3 & H4).
  - vm_compute; reflexivity.
  - destruct H4 as [H4 H5]; [vm_compute; discriminate|].
    repeat split; assumption.
Defined.

(* ================================================================== *)
(** ** [serviceLoad] with remapping lists of different lengths *)

Ltac emitted_norm :=
  unfold emitted; simpl trace; app_norm;
  rewrite skipn_app, skipn_all, Nat.sub_diag; simpl skipn; simpl app.

Ltac in_cases H He Hinit :=
  repeat first
    [ solve [eapply Hinit; eauto]
    | destruct H as [<- | H]; [discriminate He|]
    | apply in_app_or in H; destruct H as [H | H];
      [now (eapply Hinit; eauto)|]
    | progress simpl in H
    | contradiction ].

Section ServiceLoad.

Variable resolve : string -> option string.

Lemma serviceLoad_mismatch_eq self req w :
  length (remap_source_args req) <> length (remap_target_args req) ->
  LoaderROS.serviceLoad resolve self req w
  = match Loader.load (req_name req) (req_type req) StdMap.empty
            (req_my_argv req) (request_bond self req)
            (at_load_call self req w) with
    | (Returns b, w') =>
        (Returns (b, b),
         mkWorld (this w')
                 (trace w' ++ bond_start_events (request_bond self req)))
    | (Throws e, w') => (Throws e, w')
    | (Aborts, w') => (Aborts, w')
    end.
Proof.
  intros Hlen. apply Nat.eqb_neq in Hlen.
  unfold LoaderROS.serviceLoad, at_load_call, request_bond.
  unfold bind at 1. rewrite Hlen. simpl negb. cbv iota.
  unfold bind at 1. unfold emit at 1. unfold ret at 1.
  unfold bind at 1.
  destruct (negb (String.eqb (req_bond_id req) "")); simpl.
  - unfold bind at 1. unfold emit at 1. unfold ret at 1. simpl.
    unfold bind at 1. rewrite <- app_assoc. simpl.
    destruct (Loader.load _ _ _ _ _ _) as [[b| |] w']; try reflexivity.
  - unfold ret at 1. unfold bind at 1.
    destruct (Loader.load _ _ _ _ _ _) as [[b| |] w']; try reflexivity.
    unfold_M. simpl. rewrite app_nil_r. now destruct w'.
Qed.


(** The events of one [load]: they extend the trace, every [init] among them
    received the table [load] was given, and [init] is among them whenever
    the name was free and the factory returned an instance. *)
Lemma load_trace w name type remappings my_argv bond :
  exists tr,
    trace (snd (Loader.load name type remappings my_argv bond w)) = trace w ++ tr
    /\ (forall e m, In e tr -> init_remappings e = Some m -> m = remappings)
    /\ (forall p, StdMap.count name (nodelets_ (this w)) = 0 ->
                  next_instance w type = Returns (Some p) ->
                  In (NodeletInit p name remappings my_argv bond) tr).
Proof.
  rewrite load_eq.
  destruct (0 <? StdMap.count name (nodelets_ (this w)))%nat eqn:Hc.
  - eexists. split; [reflexivity|]. split.
    + intros e m Hin He. simpl in Hin.
      repeat (destruct Hin as [<- | Hin]; [discriminate He|]). contradiction.
    + intros p Hz. rewrite Hz in Hc. discriminate.
  - rewrite load_create_eq.
    replace (next_instance (mkWorld (this w) (trace w ++ [MutexLock])) type)
      with (next_instance w type) by reflexivity.
    destruct (next_instance w type) as [[p|]|[what|what]|] eqn:Hn; simpl.
    2-5: (app_norm; eexists; split; [reflexivity|]; split;
          [ intros e m Hin He; simpl in Hin;
            repeat (destruct Hin as [<- | Hin]; [discriminate He|]);
            contradiction
          | intros p' _ Hp; discriminate Hp ]).
    destruct (init_throws p name remappings my_argv) as [[what|what]|];
      simpl; destruct bond as [b|]; simpl; app_norm;
      (eexists; split; [reflexivity|]; split;
       [ intros e m Hin He; simpl in Hin;
         repeat (destruct Hin as [<- | Hin];
                 [first [discriminate He | now inversion He]|]);
         contradiction
       | intros p' _ Hp; inversion Hp; subst; simpl; tauto ]).
Qed.

(** C3, as stated, fails: a request whose source list has two names and whose
    target list has one is served with success. *)
Lemma serviceLoad_mismatch_succeeds :
  length (remap_source_args Sample.mismatched)
  <> length (remap_target_args Sample.mismatched)
  /\ fst (LoaderROS.serviceLoad Sample.resolve_name (mkLoaderROS Sample.nh)
                                Sample.mismatched Sample.fresh)
     = Returns (true, true).
Proof. split; [vm_compute; discriminate | vm_compute; reflexivity]. Qed.

(** C3, amended: for a request whose remapping lists differ in length,
    [serviceLoad] logs the error and returns what [load] returns for the
    request with an empty remapping table: false exactly when that [load]
    returns false, and true when the name is free, the factory returns an
    instance and its [init] does not throw. *)
Theorem serviceLoad_mismatch_result self req w :
  length (remap_source_args req) <> length (remap_target_args req) ->
  let r := LoaderROS.serviceLoad resolve self req w in
  let inner := Loader.load (req_name req) (req_type req) StdMap.empty
                 (req_my_argv req) (request_bond self req)
                 (at_load_call self req w) in
  fst r = match fst inner with
          | Returns b => Returns (b, b)
          | Throws e => Throws e
          | Aborts => Aborts
          end
  /\ (fst r = Returns (false, false) <-> fst inner = Returns false)
  /\ In (ROS_ERROR
          "Bad remapppings provided, target and source of different length" [])
        (emitted w (snd r))
  /\ (forall p,
        StdMap.count (req_name req) (nodelets_ (this w)) = 0 ->
        next_instance w (req_type req) = Returns (Some p) ->
        init_throws p (req_name req) StdMap.empty (req_my_argv req) = None ->
        fst r = Returns (true, true)).
Proof.
  intros Hlen. cbv zeta. rewrite (serviceLoad_mismatch_eq self req w Hlen).
  destruct (load_trace (at_load_call self req w) (req_name req) (req_type req)
              StdMap.empty (req_my_argv req) (request_bond self req))
    as (tr & Htr & _ & _).
  assert (Hok : forall p,
    StdMap.count (req_name req) (nodelets_ (this w)) = 0 ->
    next_instance w (req_type req) = Returns (Some p) ->
    init_throws p (req_name req) StdMap.empty (req_my_argv req) = None ->
    fst (Loader.load (req_name req) (req_type req) StdMap.empty
           (req_my_argv req) (request_bond self req) (at_load_call self req w))
    = Returns true).
  { intros p Hz Hn Hi. rewrite load_eq. simpl this. rewrite Hz.
    simpl (0 <? 0)%nat. cbv iota. rewrite load_create_eq.
    replace (next_instance _ (req_type req))
      with (next_instance w (req_type req)) by reflexivity.
    rewrite Hn. cbv zeta. rewrite Hi. reflexivity. }
  destruct (Loader.load _ _ _ _ _ _) as [[b| |] [l' tr']] eqn:E;
    simpl in Htr, Hok; subst tr'; cbn [fst snd].
  - split; [reflexivity|]. split.
    { split; intros H; inversion H; reflexivity. }
    split; [emitted_norm; left; reflexivity|].
    intros p Hz Hn Hi. specialize (Hok p Hz Hn Hi). inversion Hok. reflexivity.
  - split; [reflexivity|]. split; [split; discriminate|].
    split; [emitted_norm; left; reflexivity|].
    intros p Hz Hn Hi. specialize (Hok p Hz Hn Hi). discriminate.
  - split; [reflexivity|]. split; [split; discriminate|].
    split; [emitted_norm; left; reflexivity|].
    intros p Hz Hn Hi. specialize (Hok p Hz Hn Hi). discriminate.
Qed.

(** C4: for a request whose remapping lists differ in length, [serviceLoad]
    still calls [load], with the empty remapping table: every [init] of the
    call receives the empty table, and [init] is called whenever the name is
    free and the factory returns an instance. *)
Theorem serviceLoad_mismatch_empty_remappings self req w :
  length (remap_source_args req) <> length (remap_target_args req) ->
  let r := LoaderROS.serviceLoad resolve self req w in
  let inner := Loader.load (req_name req) (req_type req) StdMap.empty
                 (req_my_argv req) (request_bond self req)
                 (at_load_call self req w) in
  this (snd r) = this (snd inner)
  /\ (forall b, fst inner = Returns b -> fst r = Returns (b, b))
  /\ (forall e m, In e (emitted w (snd r)) -> init_remappings e = Some m ->
                  m = StdMap.empty)
  /\ (forall p,
        StdMap.count (req_name req) (nodelets_ (this w)) = 0 ->
        next_instance w (req_type req) = Returns (Some p) ->
        In (NodeletInit p (req_name req) StdMap.empty (req_my_argv req)
                        (request_bond self req))
           (emitted w (snd r))).
Proof.
  intros Hlen. cbv zeta. rewrite (serviceLoad_mismatch_eq self req w Hlen).
  destruct (load_trace (at_load_call self req w) (req_name req) (req_type req)
              StdMap.empty (req_my_argv req) (request_bond self req))
    as (tr & Htr & Hinit & Hcalled).
  unfold at_load_call in Htr, Hcalled. simpl in Hcalled.
  destruct (Loader.load _ _ _ _ _ _) as [[b| |] [l' tr']] eqn:E;
    simpl in Htr; subst tr'; cbn [fst snd this];
    (split; [reflexivity|]);
    (split; [first [intros b' Hb; now inversion Hb | discriminate]|]);
    destruct (request_bond self req) as [bd|]; emitted_norm;
    (split;
     [ intros ev m H He; in_cases H He Hinit
     | intros p Hz Hn; specialize (Hcalled p Hz Hn);
       repeat right; first [assumption | apply in_or_app; tauto] ]).
Qed.

End ServiceLoad.

Lemma serviceLoad_mismatch_result_witness :
  length (remap_source_args Sample.mismatched)
  <> length (remap_target_args Sample.mismatched)
  /\ In (ROS_ERROR
          "Bad remapppings provided, target and source of different length" [])
        (emitted Sample.fresh
           (snd (LoaderROS.serviceLoad Sample.resolve_name (mkLoaderROS Sample.nh)
                                       Sample.mismatched Sample.fresh))).
Proof.
  assert (Hlen : length (remap_source_args Sample.mismatched)
                 <> length (remap_target_args Sample.mismatched))
    by (simpl; lia).
  split; [exact Hlen|].
  destruct (serviceLoad_mismatch_result Sample.resolve_name (mkLoaderROS Sample.nh)
              Sample.mismatched Sample.fresh Hlen) as (_ & _ & H & _).
  exact H.
Defined.

Lemma serviceLoad_mismatch_empty_remappings_witness :
  length (remap_source_args Sample.mismatched)
  <> length (remap_target_args Sample.mismatched)
  /\ forall e m,
       In e (emitted Sample.fresh
               (snd (LoaderROS.serviceLoad Sample.resolve_name (mkLoaderROS Sample.nh)
                                           Sample.mismatched Sample.fresh))) ->
       init_remappings e = Some m -> m = StdMap.empty.
Proof.
  assert (Hlen : length (remap_source_args Sample.mismatched)
                 <> length (remap_target_args Sample.mismatched))
    by (simpl; lia).
  split; [exact Hlen|].
  destruct (serviceLoad_mismatch_empty_remappings Sample.resolve_name
              (mkLoaderROS Sample.nh) Sample.mismatched Sample.fresh Hlen)
    as (_ & _ & H & _).
  exact H.
Defined.

(* ================================================================== *)
(** ** Histories: what [listLoadedNodelets] shows *)

Lemma call_load_eq w name type remappings my_argv bond :
  call (CallLoad name type remappings my_argv bond) w
  = match Loader.load name type remappings my_argv bond w with
    | (Returns b, w') => (Returns (Flag b), w')
    | (Throws e, w') => (Throws e, w')
    | (Aborts, w') => (Aborts, w')
    end.
Proof.
  unfold call, bind, ret.
  destruct (Loader.load _ _ _ _ _ _) as [[b| |] w']; reflexivity.
Qed.

Lemma call_unload_eq w name :
  call (CallUnload name) w
  = (Returns (Flag match StdMap.find name (nodelets_ (this w)) with
                   | Some _ => true
                   | None => false
                   end),
     snd (Loader.unload name w)).
Proof.
  unfold call, bind, ret. rewrite unload_eq.
  destruct (StdMap.find name (nodelets_ (this w))); reflexivity.
Qed.

Lemma call_wf c w :
  StdMap.wf (nodelets_ (this w)) ->
  StdMap.wf (nodelets_ (this (snd (call c w)))).
Proof.
  intros Hwf. destruct c as [name type remappings my_argv bond|name| |].
  - rewrite call_load_eq.
    pose proof (load_nodelets w name type remappings my_argv bond) as L.
    cbv zeta in L.
    destruct (Loader.load _ _ _ _ _ _) as [[b| |] w']; simpl in *;
      (destruct L as [[-> _] | [_ [p ->]]]; [exact Hwf | now apply wf_assign]).
  - rewrite call_unload_eq, unload_eq. simpl.
    destruct (StdMap.find name (nodelets_ (this w))); simpl;
      [now apply wf_erase | exact Hwf].
  - unfold call, bind. rewrite clear_eq. simpl. constructor.
  - unfold call, bind. rewrite listLoadedNodelets_eq. exact Hwf.
Qed.

Lemma call_keeps name c w :
  StdMap.wf (nodelets_ (this w)) ->
  In name (StdMap.keys (nodelets_ (this w))) ->
  removes name c (fst (call c w)) = false ->
  In name (StdMap.keys (nodelets_ (this (snd (call c w))))).
Proof.
  intros Hwf Hin Hrm. destruct c as [n type remappings my_argv bond|n| |].
  - rewrite call_load_eq.
    pose proof (load_nodelets w n type remappings my_argv bond) as L.
    cbv zeta in L.
    destruct (Loader.load _ _ _ _ _ _) as [[b| |] w']; simpl in *;
      (destruct L as [[-> _] | [_ [p ->]]];
       [exact Hin | apply keys_assign_In; now right]).
  - rewrite call_unload_eq, unload_eq in *. simpl in *.
    destruct (StdMap.find n (nodelets_ (this w))) eqn:Hf; simpl in *;
      [|exact Hin].
    apply String.eqb_neq in Hrm. rewrite keys_erase by exact Hwf.
    apply filter_In. split; [exact Hin|].
    apply negb_true_iff. now apply String.eqb_neq.
  - simpl in Hrm. discriminate.
  - unfold call, bind. rewrite listLoadedNodelets_eq. exact Hin.
Qed.

Lemma call_removes name c w :
  StdMap.wf (nodelets_ (this w)) ->
  removes name c (fst (call c w)) = true ->
  ~ In name (StdMap.keys (nodelets_ (this (snd (call c w))))).
Proof.
  intros Hwf Hrm. destruct c as [n type remappings my_argv bond|n| |].
  - rewrite call_load_eq in Hrm.
    destruct (Loader.load _ _ _ _ _ _) as [[b| |] w']; discriminate.
  - rewrite call_unload_eq, unload_eq in *. simpl in *.
    destruct (StdMap.find n (nodelets_ (this w))) eqn:Hf; simpl in *;
      [|discriminate].
    apply String.eqb_eq in Hrm. subst n.
    apply find_None_not_In. now apply find_erase_same.
  - unfold call, bind. rewrite clear_eq. simpl. tauto.
  - unfold call, bind in Hrm. rewrite listLoadedNodelets_eq in Hrm.
    discriminate.
Qed.

Lemma run_cons c cs w :
  run (c :: cs) w
  = (fst (call c w) :: fst (run cs (snd (call c w))),
     snd (run cs (snd (call c w)))).
Proof.
  simpl. destruct (call c w) as [r w']. simpl.
  destruct (run cs w') as [rs w'']. reflexivity.
Qed.

Lemma run_wf cs w :
  StdMap.wf (nodelets_ (this w)) ->
  StdMap.wf (nodelets_ (this (snd (run cs w)))).
Proof.
  revert w. induction cs as [|c cs IH]; intros w Hwf; [exact Hwf|].
  rewrite run_cons. simpl. apply IH. now apply call_wf.
Qed.

Lemma run_keeps name cs w :
  StdMap.wf (nodelets_ (this w)) ->
  In name (StdMap.keys (nodelets_ (this w))) ->
  none_removes name cs (fst (run cs w)) = true ->
  In name (StdMap.keys (nodelets_ (this (snd (run cs w))))).
Proof.
  revert w. induction cs as [|c cs IH]; intros w Hwf Hin Hnr; [exact Hin|].
  rewrite run_cons in *. simpl in *. apply andb_true_iff in Hnr.
  destruct Hnr as [H1 H2]. apply negb_true_iff in H1.
  apply IH; [now apply call_wf | now apply call_keeps | exact H2].
Qed.

Lemma listed_eq w : listed w = Returns (StdMap.keys (nodelets_ (this w))).
Proof. unfold listed. now rewrite listLoadedNodelets_eq. Qed.

(** C6: after [load(n, ...)] returned true, [n] is listed exactly once, and
    stays listed exactly once through every history of calls none of which
    is a [clear()] or an [unload(n)] that returns true; after such a call it
    is not listed. *)
Theorem loaded_name_listed_once w name type remappings my_argv bond :
  StdMap.wf (nodelets_ (this w)) ->
  let r := Loader.load name type remappings my_argv bond w in
  fst r = Returns true ->
  forall cs,
    let h := run cs (snd r) in
    none_removes name cs (fst h) = true ->
    (exists l, listed (snd h) = Returns l
               /\ count_occ string_dec l name = 1)
    /\ (forall c,
          removes name c (fst (call c (snd h))) = true ->
          exists l, listed (snd (call c (snd h))) = Returns l
                    /\ count_occ string_dec l name = 0).
Proof.
  intros Hwf. cbv zeta. intros Hr cs Hnr.
  destruct (Loader.load name type remappings my_argv bond w) as [r w1] eqn:E.
  simpl in *. subst r. apply load_true in E. destruct E as [_ [p Hp]].
  assert (Hwf1 : StdMap.wf (nodelets_ (this w1)))
    by (rewrite Hp; now apply wf_assign).
  assert (Hin1 : In name (StdMap.keys (nodelets_ (this w1))))
    by (rewrite Hp; apply keys_assign_In; now left).
  assert (Hwf2 := run_wf cs w1 Hwf1).
  assert (Hin2 := run_keeps name cs w1 Hwf1 Hin1 Hnr).
  split.
  - eexists. split; [apply listed_eq|].
    rewrite count_occ_keys by exact Hwf2.
    apply count_pos_In in Hin2. unfold StdMap.count in *.
    destruct (StdMap.find name _); [reflexivity | discriminate].
  - intros c Hc. eexists. split; [apply listed_eq|].
    apply count_occ_not_In. now apply call_removes.
Qed.

Lemma loaded_name_listed_once_witness :
  exists l,
    listed (snd (run [CallLoad "b" "DriverType" StdMap.empty [] None;
                      CallUnload "b"; CallList]
                     (snd (Loader.load "a" "DriverType" StdMap.empty [] None
                                       Sample.with_cam))))
    = Returns l
    /\ count_occ string_dec l "a" = 1.
Proof.
  refine (proj1 (loaded_name_listed_once Sample.with_cam "a" "DriverType"
                   StdMap.empty [] None _ _
                   [CallLoad "b" "DriverType" StdMap.empty [] None;
                    CallUnload "b"; CallList] _)).
  - vm_compute. repeat constructor.
  - vm_compute; reflexivity.
  - vm_compute; reflexivity.
Defined.

(** The insertion order of a history names exactly the keys of the map. *)
Lemma insertion_order_step_names (before after : M_stringToNodelet) order :
  StdMap.wf after ->
  NoDup order /\ (forall k, In k order <-> In k (StdMap.keys before)) ->
  NoDup (insertion_order_step before after order)
  /\ (forall k, In k (insertion_order_step before after order)
                <-> In k (StdMap.keys after)).
Proof.
  intros Hwf [Hnd Hiff]. unfold insertion_order_step. split.
  - apply NoDup_app.
    + now apply NoDup_filter.
    + apply NoDup_filter. now apply wf_NoDup.
    + intros k H1 H2. apply filter_In in H1, H2.
      destruct H1 as [H1 _]. destruct H2 as [_ H2].
      apply negb_true_iff, count_zero_not_In in H2. apply H2, Hiff, H1.
  - intros k. rewrite in_app_iff, !filter_In, negb_true_iff.
    rewrite count_pos_In, count_zero_not_In, Hiff.
    destruct (in_dec string_dec k (StdMap.keys before)); tauto.
Qed.

Lemma insertion_order_names cs w order :
  StdMap.wf (nodelets_ (this w)) ->
  NoDup order /\ (forall k, In k order <-> In k (StdMap.keys (nodelets_ (this w)))) ->
  Permutation (StdMap.keys (nodelets_ (this (snd (run cs w)))))
              (insertion_order cs w order).
Proof.
  revert w order. induction cs as [|c cs IH]; intros w order Hwf Hinv.
  - simpl. destruct Hinv as [Hnd Hiff].
    apply NoDup_Permutation; [now apply wf_NoDup | exact Hnd |].
    intros k. symmetry. apply Hiff.
  - rewrite run_cons. simpl. apply IH.
    + now apply call_wf.
    + apply insertion_order_step_names; [now apply call_wf | exact Hinv].
Qed.

(** C7, as stated, fails: after [load("b", ...)] and then [load("a", ...)],
    both successful, the list is ["a"; "b"] while the entries were inserted
    in the order ["b"; "a"]. *)
Lemma list_order_is_not_insertion_order :
  let cs := [CallLoad "b" "DriverType" StdMap.empty [] None;
             CallLoad "a" "DriverType" StdMap.empty [] None] in
  fst (run cs Sample.fresh) = [Returns (Flag true); Returns (Flag true)]
  /\ listed (snd (run cs Sample.fresh)) = Returns ["a"; "b"]
  /\ insertion_order cs Sample.fresh [] = ["b"; "a"]
  /\ listed (snd (run cs Sample.fresh))
     <> Returns (insertion_order cs Sample.fresh []).
Proof.
  repeat split; try (vm_compute; reflexivity). vm_compute. discriminate.
Qed.

(** C7, amended: after any history of calls on a loader that started with an
    empty map, [listLoadedNodelets] returns exactly the current keys of the
    map and leaves the loader unchanged; the sequence is in strictly
    ascending key order (bytewise lexicographic), and holds the same names
    as the insertion order. *)
Theorem listLoadedNodelets_sorted_keys cs w0 :
  nodelets_ (this w0) = StdMap.empty ->
  let w := snd (run cs w0) in
  let r := Loader.listLoadedNodelets w in
  exists l,
    fst r = Returns l
    /\ l = StdMap.keys (nodelets_ (this w))
    /\ this (snd r) = this w
    /\ (forall k, In k l <-> StdMap.count k (nodelets_ (this w)) = 1)
    /\ StronglySorted StdMap.key_lt l
    /\ Permutation l (insertion_order cs w0 []).
Proof.
  intros H0. cbv zeta. rewrite listLoadedNodelets_eq. simpl.
  assert (Hwf0 : StdMap.wf (nodelets_ (this w0)))
    by (rewrite H0; constructor).
  eexists. split; [reflexivity|]. split; [reflexivity|].
  split; [reflexivity|]. split; [|split].
  - intros k. rewrite <- count_pos_In. unfold StdMap.count.
    destruct (StdMap.find k _); simpl; split; intros H;
      first [reflexivity | discriminate H].
  - now apply run_wf.
  - apply insertion_order_names; [exact Hwf0|].
    rewrite H0. split; [constructor | tauto].
Qed.

Lemma listLoadedNodelets_sorted_keys_witness :
  exists l,
    fst (Loader.listLoadedNodelets
           (snd (run [CallLoad "b" "DriverType" StdMap.empty [] None;
                      CallLoad "a" "DriverType" StdMap.empty [] None]
                     Sample.fresh)))
    = Returns l
    /\ StronglySorted StdMap.key_lt l.
Proof.
  destruct (listLoadedNodelets_sorted_keys
              [CallLoad "b" "DriverType" StdMap.empty [] None;
               CallLoad "a" "DriverType" StdMap.empty [] None]
              Sample.fresh) as (l & H1 & _ & _ & _ & H2 & _).
  - vm_compute; reflexivity.
  - exists l. split; [exact H1 | exact H2].
Defined.

(* ================================================================== *)
(** ** Concurrent loads of one name *)

Import Concurrent.

Lemma load_create_nodelets w name type remappings my_argv bond :
  let r := Loader.load_create name type remappings my_argv bond w in
  (nodelets_ (this (snd r)) = nodelets_ (this w) /\ fst r <> Returns true)
  \/ (exists p, nodelets_ (this (snd r))
                = StdMap.assign name p (nodelets_ (this w))).
Proof.
  cbv zeta. rewrite load_create_eq.
  destruct (next_instance w type) as [[p|]|[what|what]|]; simpl;
    try (left; split; [reflexivity | discriminate]).
  right. exists p.
  destruct (init_throws p _ _ _) as [[what|what]|]; reflexivity.
Qed.

Lemma set_thread_same i t ts : set_thread i t ts i = t.
Proof. unfold set_thread. now rewrite Nat.eqb_refl. Qed.

Lemma set_thread_other i j t ts : j <> i -> set_thread i t ts j = ts j.
Proof.
  intros H. unfold set_thread. apply Nat.eqb_neq in H. now rewrite H.
Qed.

Ltac thread_cases j i :=
  destruct (Nat.eq_dec j i) as [-> | ?];
  [ rewrite ?set_thread_same in * | rewrite ?set_thread_other in * by assumption ].

(** A thread that leaves the method while owning [lock_]. *)
Lemma leave_Inv args i r w' s :
  Inv args s ->
  lock_ s = Some i ->
  (forall k, In k (StdMap.keys (nodelets_ (this (world s)))) ->
             In k (StdMap.keys (nodelets_ (this w')))) ->
  (r = Returns true ->
   In (arg_name (args i)) (StdMap.keys (nodelets_ (this w')))
   /\ ~ In (arg_name (args i)) (StdMap.keys (nodelets_ (this (world s))))) ->
  (forall r0, threads s i <> Finished r0) ->
  Inv args (leave i r w' s).
Proof.
  intros (I1 & I2 & I3 & I4) Hlk Hmono Htrue Hnotfin.
  assert (Hothers : forall j, j <> i ->
            ~ (threads s j = HoldsLock \/ (exists b, threads s j = Checked b))).
  { intros j Hj H. apply I1 in H. congruence. }
  assert (Hinv : forall w lk,
    nodelets_ (this w) = nodelets_ (this w') ->
    Inv args (mkSystem w lk (set_thread i (Finished r) (threads s)))).
  { intros w lk Hw. unfold Inv, succeeded; simpl. rewrite Hw.
    split; [|split; [|split]].
    - intros j H. thread_cases j i.
      + destruct H as [H | [b H]]; discriminate.
      + exfalso. eapply Hothers; eassumption.
    - intros j H. thread_cases j i; [discriminate|].
      exfalso. eapply Hothers; eauto.
    - intros j H. thread_cases j i.
      + inversion H; subst. now apply Htrue.
      + apply Hmono. now apply I3.
    - intros a b Hab Hname Ha Hb.
      thread_cases a i; thread_cases b i; [congruence| | |].
      + inversion Ha; subst. destruct (Htrue eq_refl) as [_ Hfree].
        apply Hfree. rewrite Hname. now apply I3.
      + inversion Hb; subst. destruct (Htrue eq_refl) as [_ Hfree].
        apply Hfree. rewrite <- Hname. now apply I3.
      + exact (I4 a b Hab Hname Ha Hb). }
  unfold leave. destruct r; apply Hinv; reflexivity.
Qed.

Lemma step_Inv args i s : Inv args s -> Inv args (step args i s).
Proof.
  intros HI. pose proof HI as (I1 & I2 & I3 & I4). unfold step.
  destruct (threads s i) as [| |[|]|r0] eqn:Ti.
  - (* the scoped_lock *)
    destruct (lock_ s) eqn:Lk; [exact HI|].
    unfold Inv, succeeded; simpl. split; [|split; [|split]].
    + intros j H. thread_cases j i; [reflexivity|].
      apply I1 in H. congruence.
    + intros j H. thread_cases j i; [discriminate | now apply I2].
    + intros j H. thread_cases j i; [discriminate | now apply I3].
    + intros a b Hab Hname Ha Hb.
      thread_cases a i; [discriminate|]. thread_cases b i; [discriminate|].
      exact (I4 a b Hab Hname Ha Hb).
  - (* the test of nodelets_.count(name) *)
    unfold Loader.load_name_exists, bind, get, ret.
    assert (Hlk : lock_ s = Some i) by (apply I1; now left).
    unfold Inv, succeeded; simpl. split; [|split; [|split]].
    + intros j H. thread_cases j i; [exact Hlk|]. now apply I1.
    + intros j H. thread_cases j i; [|now apply I2].
      inversion H as [Hb]. now apply count_zero_not_In.
    + intros j H. thread_cases j i; [discriminate | now apply I3].
    + intros a b Hab Hname Ha Hb.
      thread_cases a i; [discriminate|]. thread_cases b i; [discriminate|].
      exact (I4 a b Hab Hname Ha Hb).
  - (* the name exists *)
    unfold bind, emit, ret.
    apply leave_Inv; try assumption.
    + apply I1. right. now exists true.
    + simpl. auto.
    + discriminate.
    + intros r0. congruence.
  - (* the try block *)
    pose proof (load_create_nodelets (world s) (arg_name (args i))
                  (arg_type (args i)) (arg_remappings (args i))
                  (arg_my_argv (args i)) (arg_bond (args i))) as L.
    cbv zeta in L.
    destruct (Loader.load_create _ _ _ _ _ _) as [r w'] eqn:E. simpl in L.
    apply leave_Inv; try assumption.
    + apply I1. right. now exists false.
    + intros k Hk. destruct L as [[-> _] | [p ->]]; [exact Hk|].
      apply keys_assign_In. now right.
    + intros ->. split; [|now apply I2].
      destruct L as [[_ L] | [p ->]]; [congruence|].
      apply keys_assign_In. now left.
    + intros r0. congruence.
  - exact HI.
Qed.

Lemma exec_Inv args schedule s : Inv args s -> Inv args (exec args schedule s).
Proof.
  revert s. induction schedule as [|i schedule IH]; intros s HI; [exact HI|].
  simpl. apply IH. now apply step_Inv.
Qed.

Lemma init_Inv args w : Inv args (init w).
Proof.
  unfold Inv, init, succeeded; simpl. split; [|split; [|split]].
  - intros i [H | [b H]]; discriminate.
  - discriminate.
  - discriminate.
  - discriminate.
Qed.

(** Whatever the schedule, two threads that call [load] with the same name
    do not both get true. *)
Lemma at_most_one_load_succeeds args w schedule i j :
  i <> j ->
  arg_name (args i) = arg_name (args j) ->
  ~ (succeeded (exec args schedule (init w)) i
     /\ succeeded (exec args schedule (init w)) j).
Proof.
  intros Hij Hname [Hi Hj].
  destruct (exec_Inv args schedule (init w) (init_Inv args w))
    as (_ & _ & _ & I4).
  exact (I4 i j Hij Hname Hi Hj).
Qed.

Lemma step_AtEntry args i s :
  threads s i = AtEntry -> lock_ s = None ->
  step args i s
  = mkSystem (log MutexLock (world s)) (Some i)
             (set_thread i HoldsLock (threads s)).
Proof. intros H1 H2. unfold step. now rewrite H1, H2. Qed.

Lemma step_HoldsLock args i s :
  threads s i = HoldsLock ->
  step args i s
  = mkSystem (world s) (lock_ s)
      (set_thread i
         (Checked (0 <? StdMap.count (arg_name (args i))
                          (nodelets_ (this (world s))))%nat)
         (threads s)).
Proof. intros H. unfold step. now rewrite H. Qed.

Lemma step_Checked_true args i s :
  threads s i = Checked true ->
  step args i s
  = mkSystem
      (mkWorld (this (world s))
         (trace (world s) ++
          [ROS_ERROR
             "Cannot load nodelet %s for one exists with that name already"
             [arg_name (args i)];
           MutexUnlock]))
      None (set_thread i (Finished (Returns false)) (threads s)).
Proof.
  intros H. unfold step. rewrite H. unfold bind, emit, ret, leave, log.
  simpl. app_norm. reflexivity.
Qed.

Lemma step_Checked_false args i s :
  threads s i = Checked false ->
  step args i s
  = leave i
      (fst (Loader.load_create (arg_name (args i)) (arg_type (args i))
              (arg_remappings (args i)) (arg_my_argv (args i))
              (arg_bond (args i)) (world s)))
      (snd (Loader.load_create (arg_name (args i)) (arg_type (args i))
              (arg_remappings (args i)) (arg_my_argv (args i))
              (arg_bond (args i)) (world s)))
      s.
Proof.
  intros H. unfold step. rewrite H.
  now destruct (Loader.load_create _ _ _ _ _ _).
Qed.

(** One thread running alone through its three steps is [load]. *)
Lemma exec_alone_is_load args w i :
  fst (Loader.load (arg_name (args i)) (arg_type (args i))
         (arg_remappings (args i)) (arg_my_argv (args i)) (arg_bond (args i)) w)
    <> Aborts ->
  let s := exec args [i; i; i] (init w) in
  threads s i
  = Finished (fst (Loader.load (arg_name (args i)) (arg_type (args i))
                     (arg_remappings (args i)) (arg_my_argv (args i))
                     (arg_bond (args i)) w))
  /\ world s = snd (Loader.load (arg_name (args i)) (arg_type (args i))
                      (arg_remappings (args i)) (arg_my_argv (args i))
                      (arg_bond (args i)) w)
  /\ lock_ s = None.
Proof.
  intros Hna. cbv zeta. rewrite load_eq in *.
  unfold exec. simpl fold_left.
  rewrite (step_AtEntry args i (init w)) by reflexivity.
  match goal with
  | |- context [step args i (step args i ?s)] =>
      rewrite (step_HoldsLock args i s) by (simpl; apply set_thread_same)
  end. simpl.
  destruct (0 <? StdMap.count (arg_name (args i)) (nodelets_ (this w)))%nat.
  - rewrite step_Checked_true by (simpl; apply set_thread_same). simpl.
    rewrite set_thread_same. app_norm. auto.
  - rewrite step_Checked_false by (simpl; apply set_thread_same). simpl.
    unfold log at 1 2. simpl.
    destruct (Loader.load_create _ _ _ _ _ _) as [[b|e|] w']; simpl in *.
    + rewrite set_thread_same. auto.
    + rewrite set_thread_same. auto.
    + congruence.
Qed.

(** C5: [load] with a name that is already a key of the map returns false
    and leaves the map, and every other member of the loader, as it was; and
    among threads that call [load] with one name on one loader, whatever the
    schedule, no two get true. *)
Theorem load_existing_name_refused w name type remappings my_argv bond :
  In name (StdMap.keys (nodelets_ (this w))) ->
  let r := Loader.load name type remappings my_argv bond w in
  fst r = Returns false
  /\ nodelets_ (this (snd r)) = nodelets_ (this w)
  /\ this (snd r) = this w
  /\ emitted w (snd r)
     = [MutexLock;
        ROS_ERROR "Cannot load nodelet %s for one exists with that name already"
                  [name];
        MutexUnlock]
  /\ (forall args w0 schedule i j,
        i <> j ->
        arg_name (args i) = name -> arg_name (args j) = name ->
        ~ (succeeded (exec args schedule (init w0)) i
           /\ succeeded (exec args schedule (init w0)) j)).
Proof.
  intros Hin. cbv zeta. apply count_pos_In in Hin.
  rewrite load_eq, Hin. simpl. rewrite emitted_app.
  repeat split; try reflexivity.
  intros args w0 schedule i j Hij Hi Hj.
  apply at_most_one_load_succeeds; congruence.
Qed.

Lemma load_existing_name_refused_witness :
  let r := Loader.load "cam" "FilterType" StdMap.empty [] None Sample.with_cam in
  fst r = Returns false
  /\ nodelets_ (this (snd r)) = nodelets_ (this Sample.with_cam).
Proof.
  destruct (load_existing_name_refused Sample.with_cam "cam" "FilterType"
              StdMap.empty [] None) as (H1 & H2 & _).
  - vm_compute. left. reflexivity.
  - split; [exact H1 | exact H2].
Defined.

(** The thread model is not stuck: with two threads asking for "cam" on a
    fresh loader, thread 0 takes the lock first and gets true, thread 1
    waits, then finds the name and gets false. *)
Example two_threads_one_winner :
  let args := fun _ : nat => mkLoadArgs "cam" "DriverType" StdMap.empty [] None in
  let s := exec args [0; 1; 0; 0; 1; 1; 1] (init Sample.fresh) in
  threads s 0 = Finished (Returns true)
  /\ threads s 1 = Finished (Returns false)
  /\ lock_ s = None
  /\ StdMap.keys (nodelets_ (this (world s))) = ["cam"].
Proof. repeat split; vm_compute; reflexivity. Qed.

(* ================================================================== *)
(** * Further properties of the loader *)

(** ** When [load] returns true, and what it leaves *)

(** [load] returns true exactly when the name is free, the factory returns
    an instance and the instance's [init] does not throw; then the map holds
    that instance under the name, every other key is as before, the factory
    was asked once, and the nodelet got its two queues before [init]. *)
Theorem load_returns_true_iff w name type remappings my_argv bond :
  let r := Loader.load name type remappings my_argv bond w in
  (fst r = Returns true
   <-> (StdMap.count name (nodelets_ (this w)) = 0
        /\ exists p, next_instance w type = Returns (Some p)
                     /\ init_throws p name remappings my_argv = None))
  /\ (forall p,
        StdMap.count name (nodelets_ (this w)) = 0 ->
        next_instance w type = Returns (Some p) ->
        init_throws p name remappings my_argv = None ->
        StdMap.find name (nodelets_ (this (snd r))) = Some p
        /\ (forall k, k <> name ->
              StdMap.find k (nodelets_ (this (snd r)))
              = StdMap.find k (nodelets_ (this w)))
        /\ calls (loader_ (this (snd r))) = S (calls (loader_ (this w)))
        /\ emitted w (snd r)
           = [MutexLock; CreateClassInstance type;
              ROS_DEBUG "Done loading nodelet %s" [name];
              NewCallbackQueue p st_callback_queue_;
              NewCallbackQueue p mt_callback_queue_;
              NodeletInit p name remappings my_argv bond]
             ++ bond_events bond name
             ++ [ROS_DEBUG "Done initing nodelet %s" [name]; MutexUnlock]).
Proof.
  cbv zeta. rewrite load_eq.
  destruct (0 <? StdMap.count name (nodelets_ (this w)))%nat eqn:Hc.
  - assert (Hnz : StdMap.count name (nodelets_ (this w)) <> 0).
    { apply Nat.ltb_lt in Hc. lia. }
    split; [|intros; contradiction].
    simpl. split; [discriminate | intros [H _]; contradiction].
  - assert (Hz : StdMap.count name (nodelets_ (this w)) = 0).
    { apply Nat.ltb_ge in Hc. lia. }
    rewrite load_create_eq.
    replace (next_instance (mkWorld (this w) (trace w ++ [MutexLock])) type)
      with (next_instance w type) by reflexivity.
    split.
    + destruct (next_instance w type) as [[p|]|[what|what]|] eqn:Hn; simpl.
      * destruct (init_throws p name remappings my_argv) as [[what|what]|]
          eqn:Hi; simpl.
        -- split; [discriminate|]. intros (_ & q & Hq & Hq').
           inversion Hq; subst. congruence.
        -- split; [discriminate|]. intros (_ & q & Hq & Hq').
           inversion Hq; subst. congruence.
        -- split; [|reflexivity]. intros _. split; [exact Hz|].
           exists p. auto.
      * split; [discriminate|]. intros (_ & q & Hq & _). discriminate.
      * split; [discriminate|]. intros (_ & q & Hq & _). discriminate.
      * split; [discriminate|]. intros (_ & q & Hq & _). discriminate.
      * split; [discriminate|]. intros (_ & q & Hq & _). discriminate.
    + intros p _ Hn Hi. rewrite Hn. cbv zeta. rewrite Hi. simpl.
      split; [apply find_assign_same|]. split.
      * intros k Hk. apply find_assign_other. congruence.
      * split; [reflexivity|]. app_norm. rewrite emitted_app.
        app_norm. reflexivity.
Qed.

(** [load] lets through exactly the exceptions that are not
    [PluginlibException]s, thrown by the factory or by [init]; it then writes
    no [ROS_ERROR], and [lock_] is released on the way out. *)
Theorem load_throws_iff w name type remappings my_argv bond e :
  let r := Loader.load name type remappings my_argv bond w in
  (fst r = Throws e
   <-> (StdMap.count name (nodelets_ (this w)) = 0
        /\ (exists what, e = OtherException what)
        /\ (next_instance w type = Throws e
            \/ exists p, next_instance w type = Returns (Some p)
                         /\ init_throws p name remappings my_argv = Some e)))
  /\ (fst r = Throws e ->
      existsb is_ROS_ERROR (emitted w (snd r)) = false
      /\ exists tr, emitted w (snd r) = MutexLock :: tr ++ [MutexUnlock]).
Proof.
  cbv zeta. rewrite load_eq.
  destruct (0 <? StdMap.count name (nodelets_ (this w)))%nat eqn:Hc.
  - assert (Hnz : StdMap.count name (nodelets_ (this w)) <> 0).
    { apply Nat.ltb_lt in Hc. lia. }
    simpl. split; [|discriminate].
    split; [discriminate | intros [H _]; contradiction].
  - assert (Hz : StdMap.count name (nodelets_ (this w)) = 0).
    { apply Nat.ltb_ge in Hc. lia. }
    rewrite load_create_eq.
    replace (next_instance (mkWorld (this w) (trace w ++ [MutexLock])) type)
      with (next_instance w type) by reflexivity.
    destruct (next_instance w type) as [[p|]|[what|what]|] eqn:Hn; simpl.
    + destruct (init_throws p name remappings my_argv) as [[what|what]|]
        eqn:Hi; simpl.
      * split; [|discriminate]. split; [discriminate|].
        intros (_ & [what' ->] & [H | (q & Hq & Hq')]); [discriminate|].
        inversion Hq; subst. congruence.
      * split.
        -- split.
           ++ intros H. inversion H; subst. split; [exact Hz|].
              split; [now exists what|]. right. exists p. auto.
           ++ intros (_ & _ & [H | (q & Hq & Hq')]); [discriminate|].
              inversion Hq; subst. congruence.
        -- intros _. app_norm. rewrite emitted_app. split; [reflexivity|].
           exists [CreateClassInstance type;
                   ROS_DEBUG "Done loading nodelet %s" [name];
                   NewCallbackQueue p st_callback_queue_;
                   NewCallbackQueue p mt_callback_queue_;
                   NodeletInit p name remappings my_argv bond].
           reflexivity.
      * split; [|discriminate]. split; [discriminate|].
        intros (_ & _ & [H | (q & Hq & Hq')]); [discriminate|].
        inversion Hq; subst. congruence.
    + split; [|discriminate]. split; [discriminate|].
      intros (_ & _ & [H | (q & Hq & _)]); discriminate.
    + split; [|discriminate]. split; [discriminate|].
      intros (_ & [what' ->] & [H | (q & Hq & _)]); discriminate.
    + split.
      * split.
        -- intros H. inversion H; subst. split; [exact Hz|].
           split; [now exists what|]. now left.
        -- intros (_ & _ & [H | (q & Hq & _)]); [congruence | discriminate].
      * intros _. app_norm. rewrite emitted_app. split; [reflexivity|].
        exists [CreateClassInstance type]. reflexivity.
    + split; [|discriminate]. split; [discriminate|].
      intros (_ & _ & [H | (q & Hq & _)]); discriminate.
Qed.

Lemma load_returns_true_iff_witness :
  let r := Loader.load "cam" "DriverType" StdMap.empty [] None Sample.fresh in
  fst r = Returns true
  /\ StdMap.find "cam" (nodelets_ (this (snd r))) = Some (Sample.well_behaved 0).
Proof.
  destruct (load_returns_true_iff Sample.fresh "cam" "DriverType" StdMap.empty
              [] None) as [[_ H1] H2].
  split.
  - apply H1. split; [vm_compute; reflexivity|].
    exists (Sample.well_behaved 0). split; vm_compute; reflexivity.
  - apply (H2 (Sample.well_behaved 0)); vm_compute; reflexivity.
Defined.

Lemma load_throws_iff_witness :
  let r := Loader.load "cam" "ThrowingType" StdMap.empty [] None Sample.fresh' in
  fst r = Throws (OtherException "bad_alloc")
  /\ existsb is_ROS_ERROR (emitted Sample.fresh' (snd r)) = false.
Proof.
  destruct (load_throws_iff Sample.fresh' "cam" "ThrowingType" StdMap.empty
              [] None (OtherException "bad_alloc")) as [[_ H1] H2].
  assert (H : fst (Loader.load "cam" "ThrowingType" StdMap.empty [] None
                     Sample.fresh') = Throws (OtherException "bad_alloc")).
  { apply H1. split; [vm_compute; reflexivity|].
    split; [now exists "bad_alloc"|]. right.
    exists (Sample.throwing 0). split; vm_compute; reflexivity. }
  split; [exact H | exact (proj1 (H2 H))].
Defined.

(** ** Round trips and framing *)

Section MoreStdMapFacts.

Context {V : Type}.
Implicit Types (m : StdMap.t V) (k : string) (v : V).

Lemma erase_absent k m :
  ~ In k (StdMap.keys m) -> StdMap.erase k m = m.
Proof.
  induction m as [|[k0 v0] m IH]; simpl; intros H; [reflexivity|].
  destruct (String.eqb k k0) eqn:E.
  - apply String.eqb_eq in E. subst. tauto.
  - f_equal. apply IH. tauto.
Qed.

Lemma erase_assign k v m :
  StdMap.wf m -> ~ In k (StdMap.keys m) ->
  StdMap.erase k (StdMap.assign k v m) = m.
Proof.
  induction m as [|[k0 v0] m IH]; simpl; intros Hwf Hin.
  - now rewrite String.eqb_refl.
  - destruct (String.compare k k0) eqn:E; simpl.
    + apply String.compare_eq_iff in E. subst. tauto.
    + now rewrite String.eqb_refl.
    + apply compare_Gt_neq in E. apply String.eqb_neq in E. rewrite E.
      f_equal. apply IH; [eapply wf_tail; eassumption | tauto].
Qed.

End MoreStdMapFacts.

Lemma load_true_inv w name type remappings my_argv bond :
  fst (Loader.load name type remappings my_argv bond w) = Returns true ->
  exists p,
    next_instance w type = Returns (Some p)
    /\ StdMap.count name (nodelets_ (this w)) = 0
    /\ nodelets_ (this (snd (Loader.load name type remappings my_argv bond w)))
       = StdMap.assign name p (nodelets_ (this w)).
Proof.
  rewrite load_eq.
  destruct (0 <? StdMap.count name (nodelets_ (this w)))%nat eqn:Hc;
    [discriminate|].
  assert (Hz : StdMap.count name (nodelets_ (this w)) = 0).
  { apply Nat.ltb_ge in Hc. lia. }
  rewrite load_create_eq.
  replace (next_instance (mkWorld (this w) (trace w ++ [MutexLock])) type)
    with (next_instance w type) by reflexivity.
  destruct (next_instance w type) as [[p|]|[what|what]|]; simpl;
    try discriminate.
  destruct (init_throws p _ _ _) as [[what|what]|]; simpl; try discriminate.
  intros _. exists p. auto.
Qed.

(** A successful [load] followed by [unload] of the same name gives the map
    back as it was before the load; [unload] returns true and disables and
    releases the very instance the factory returned. *)
Theorem load_then_unload w name type remappings my_argv bond :
  StdMap.wf (nodelets_ (this w)) ->
  let r := Loader.load name type remappings my_argv bond w in
  fst r = Returns true ->
  let r' := Loader.unload name (snd r) in
  fst r' = Returns true
  /\ nodelets_ (this (snd r')) = nodelets_ (this w)
  /\ exists p, next_instance w type = Returns (Some p)
               /\ emitted (snd r) (snd r')
                  = [MutexLock; NodeletDisable p; NodeletRelease p;
                     ROS_DEBUG "Done unloading nodelet %s" [name];
                     MutexUnlock].
Proof.
  intros Hwf. cbv zeta. intros Hr.
  destruct (load_true_inv _ _ _ _ _ _ Hr) as (p & Hn & Hz & Hq).
  rewrite unload_eq, Hq, find_assign_same. simpl. rewrite emitted_app.
  split; [reflexivity|]. split.
  - apply erase_assign; [exact Hwf|].
    apply count_zero_not_In. now rewrite Hz.
  - exists p. auto.
Qed.

Lemma load_then_unload_witness :
  let r := Loader.load "lidar" "DriverType" StdMap.empty [] None Sample.with_cam in
  let r' := Loader.unload "lidar" (snd r) in
  fst r' = Returns true
  /\ nodelets_ (this (snd r')) = nodelets_ (this Sample.with_cam).
Proof.
  destruct (load_then_unload Sample.with_cam "lidar" "DriverType" StdMap.empty
              [] None) as (H1 & H2 & _).
  - vm_compute. repeat constructor.
  - vm_compute; reflexivity.
  - split; [exact H1 | exact H2].
Defined.

(** [unload] cannot be repeated: whatever the first [unload(name)] returned,
    a second one right after it returns false, disables nothing and leaves
    the loader as the first one left it. *)
Theorem unload_twice w name :
  StdMap.wf (nodelets_ (this w)) ->
  let r := Loader.unload name w in
  let r' := Loader.unload name (snd r) in
  fst r' = Returns false
  /\ this (snd r') = this (snd r)
  /\ emitted (snd r) (snd r') = [MutexLock; MutexUnlock].
Proof.
  intros Hwf. cbv zeta.
  assert (H : StdMap.find name (nodelets_ (this (snd (Loader.unload name w))))
              = None).
  { rewrite unload_eq.
    destruct (StdMap.find name (nodelets_ (this w))) eqn:Hf; simpl;
      [now apply find_erase_same | exact Hf]. }
  rewrite (unload_eq (snd (Loader.unload name w))), H. simpl.
  rewrite emitted_app. auto.
Qed.

Lemma unload_twice_witness :
  let r := Loader.unload "cam" Sample.with_cam in
  fst r = Returns true /\ fst (Loader.unload "cam" (snd r)) = Returns false.
Proof.
  split; [vm_compute; reflexivity|].
  apply (unload_twice Sample.with_cam "cam"). vm_compute. repeat constructor.
Defined.

(** [load] and [unload] touch one key: after [load(name, ...)] or
    [unload(name)], whatever it returned or threw, every other key maps to
    what it mapped to before; [listLoadedNodelets] changes no member. *)
Theorem other_names_untouched w k :
  (forall name type remappings my_argv bond,
     name <> k ->
     StdMap.find k (nodelets_ (this (snd (Loader.load name type remappings
                                            my_argv bond w))))
     = StdMap.find k (nodelets_ (this w)))
  /\ (forall name,
        name <> k ->
        StdMap.find k (nodelets_ (this (snd (Loader.unload name w))))
        = StdMap.find k (nodelets_ (this w)))
  /\ this (snd (Loader.listLoadedNodelets w)) = this w.
Proof.
  split; [|split].
  - intros name type remappings my_argv bond Hne.
    pose proof (load_nodelets w name type remappings my_argv bond) as L.
    cbv zeta in L. destruct L as [[-> _] | [_ [p ->]]]; [reflexivity|].
    now apply find_assign_other.
  - intros name Hne. rewrite unload_eq.
    destruct (StdMap.find name (nodelets_ (this w))); simpl; [|reflexivity].
    now apply find_erase_other.
  - now rewrite listLoadedNodelets_eq.
Qed.

Lemma other_names_untouched_witness :
  StdMap.find "cam"
    (nodelets_ (this (snd (Loader.load "flt" "FilterType" StdMap.empty [] None
                             Sample.with_cam))))
  = StdMap.find "cam" (nodelets_ (this Sample.with_cam)).
Proof.
  apply (proj1 (other_names_untouched Sample.with_cam "cam")).
  intros H. discriminate H.
Defined.

(** [clear] returns true, empties the map and releases every nodelet that was
    in it, each once, without calling [disable] on any; the other members
    are kept, the list is empty afterwards, and no name is taken any more. *)
Theorem clear_releases_all w :
  let r := Loader.clear w in
  fst r = Returns true
  /\ nodelets_ (this (snd r)) = StdMap.empty
  /\ loader_ (this (snd r)) = loader_ (this w)
  /\ services_ (this (snd r)) = services_ (this w)
  /\ callback_manager_ (this (snd r)) = callback_manager_ (this w)
  /\ (exists released,
        emitted w (snd r) = [MutexLock] ++ released ++ [MutexUnlock]
        /\ Permutation released
             (map (fun e => NodeletRelease (snd e)) (nodelets_ (this w))))
  /\ existsb is_NodeletDisable (emitted w (snd r)) = false
  /\ listed (snd r) = Returns []
  /\ (forall name, StdMap.count name (nodelets_ (this (snd r))) = 0).
Proof.
  cbv zeta. rewrite clear_eq. cbn [fst snd this nodelets_ set_nodelets
    loader_ services_ callback_manager_]. rewrite emitted_app.
  split; [reflexivity|]. split; [reflexivity|]. split; [reflexivity|].
  split; [reflexivity|]. split; [reflexivity|]. split.
  { eexists. split; [reflexivity|].
    apply Permutation_map, Permutation_sym, Permutation_rev. }
  split; [|split; [reflexivity | reflexivity]].
  simpl. rewrite existsb_app. simpl. rewrite orb_false_r.
  induction (rev (nodelets_ (this w))) as [|e l IH]; simpl;
    [reflexivity | exact IH].
Qed.

(** ** Construction, and teardown after any history *)

(** A constructed loader has an empty map and a running callback manager,
    whatever the arguments. The service front end exists exactly when
    [provide_ros_api] is set, and the parameter [num_worker_threads] is
    honoured only then: without the ROS API the manager is default
    constructed even if the parameter is set. *)
Theorem constructor_postcondition plugins provide_ros_api server_nh :
  let r := Loader.Loader_new plugins provide_ros_api server_nh in
  fst r = Returns tt
  /\ nodelets_ (this (snd r)) = StdMap.empty
  /\ loader_ (this (snd r)) = plugins
  /\ services_ (this (snd r))
     = (if provide_ros_api then Some (mkLoaderROS server_nh) else None)
  /\ callback_manager_ (this (snd r))
     = Some (mkCallbackQueueManager
               (if provide_ros_api then num_worker_threads server_nh else None)
               true)
  /\ trace (snd r)
     = (if provide_ros_api then
          [AdvertiseService "load_nodelet"; AdvertiseService "unload_nodelet";
           AdvertiseService "list"; BondSpinnerStart]
          ++ match num_worker_threads server_nh with
             | Some n =>
                 [ROS_INFO "Initializing nodelet with %d worker threads." n]
             | None => []
             end
        else []).
Proof.
  cbv zeta. unfold Loader.Loader_new, Loader.constructorImplementation,
    Loader.LoaderROS_new.
  destruct provide_ros_api; [|repeat split; reflexivity].
  destruct server_nh as [ns [n|]]; repeat split; reflexivity.
Qed.

Lemma Loader_new_members plugins provide_ros_api server_nh :
  nodelets_ (this (snd (Loader.Loader_new plugins provide_ros_api server_nh)))
  = StdMap.empty
  /\ callback_manager_
       (this (snd (Loader.Loader_new plugins provide_ros_api server_nh)))
     = Some (mkCallbackQueueManager
               (if provide_ros_api then num_worker_threads server_nh else None)
               true).
Proof.
  unfold Loader.Loader_new, Loader.constructorImplementation,
    Loader.LoaderROS_new.
  destruct provide_ros_api; [|split; reflexivity].
  destruct server_nh as [ns [n|]]; split; reflexivity.
Qed.

Lemma load_keeps_collaborators w name type remappings my_argv bond :
  let r := Loader.load name type remappings my_argv bond w in
  services_ (this (snd r)) = services_ (this w)
  /\ callback_manager_ (this (snd r)) = callback_manager_ (this w)
  /\ createClassInstance_ (loader_ (this (snd r)))
     = createClassInstance_ (loader_ (this w)).
Proof.
  cbv zeta. rewrite load_eq.
  destruct (0 <? StdMap.count name (nodelets_ (this w)))%nat;
    [repeat split; reflexivity|].
  rewrite load_create_eq. unfold next_instance; simpl.
  destruct (createClassInstance_ _ _ _) as [[p|]|[what|what]|]; simpl;
    try (repeat split; reflexivity).
  destruct (init_throws p _ _ _) as [[what|what]|]; repeat split; reflexivity.
Qed.

Lemma call_keeps_collaborators c w :
  services_ (this (snd (call c w))) = services_ (this w)
  /\ callback_manager_ (this (snd (call c w))) = callback_manager_ (this w).
Proof.
  destruct c as [name type remappings my_argv bond|name| |].
  - rewrite call_load_eq.
    pose proof (load_keeps_collaborators w name type remappings my_argv bond)
      as L. cbv zeta in L.
    destruct (Loader.load _ _ _ _ _ _) as [[b| |] w']; simpl in *; tauto.
  - rewrite call_unload_eq, unload_eq.
    destruct (StdMap.find name (nodelets_ (this w))); split; reflexivity.
  - unfold call, bind. rewrite clear_eq. split; reflexivity.
  - unfold call, bind. rewrite listLoadedNodelets_eq. split; reflexivity.
Qed.

Lemma run_keeps_collaborators cs w :
  services_ (this (snd (run cs w))) = services_ (this w)
  /\ callback_manager_ (this (snd (run cs w))) = callback_manager_ (this w).
Proof.
  revert w. induction cs as [|c cs IH]; intros w; [split; reflexivity|].
  rewrite run_cons. simpl.
  destruct (IH (snd (call c w))) as [H1 H2].
  destruct (call_keeps_collaborators c w) as [H3 H4].
  split; congruence.
Qed.

Lemma Loader_delete_eq w cm :
  callback_manager_ (this w) = Some cm ->
  Loader.Loader_delete w
  = (Returns tt,
     mkWorld (mkLoader (loader_ (this w)) None None StdMap.empty)
       (trace w ++ [ServicesReset; CallbackManagerStop]
        ++ map (fun e => NodeletRelease (snd e)) (rev (nodelets_ (this w)))
        ++ [CallbackManagerReset])).
Proof.
  intros Hcm.
  unfold Loader.Loader_delete, Loader.services_reset,
    Loader.callback_manager_stop, Loader.callback_manager_reset.
  unfold bind at 1. unfold bind at 1. unfold bind at 1.
  unfold get at 1, put at 1, emit at 1. simpl.
  unfold bind at 1. unfold bind at 1. unfold get at 1. simpl.
  rewrite Hcm. unfold bind at 1. unfold emit at 1, put at 1. simpl.
  unfold bind at 1. rewrite nodelets_clear_eq. unfold_M. simpl.
  app_norm. reflexivity.
Qed.

(** No call of [load], [unload], [clear] or [listLoadedNodelets] changes
    [services_] or [callback_manager_]; so the destructor of a constructed
    loader, after any history of such calls, finds the callback manager it
    dereferences, returns, and releases exactly the nodelets still in the
    map, each once, between the stop and the release of the manager. *)
Theorem teardown_after_any_history plugins provide_ros_api server_nh cs :
  let w := snd (run cs (snd (Loader.Loader_new plugins provide_ros_api
                               server_nh))) in
  let r := Loader.Loader_delete w in
  callback_manager_ (this w)
  = Some (mkCallbackQueueManager
            (if provide_ros_api then num_worker_threads server_nh else None)
            true)
  /\ fst r = Returns tt
  /\ nodelets_ (this (snd r)) = StdMap.empty
  /\ services_ (this (snd r)) = None
  /\ callback_manager_ (this (snd r)) = None
  /\ (exists released,
        emitted w (snd r)
        = [ServicesReset; CallbackManagerStop] ++ released
          ++ [CallbackManagerReset]
        /\ Permutation released
             (map (fun e => NodeletRelease (snd e)) (nodelets_ (this w))))
  /\ NoDup (StdMap.keys (nodelets_ (this w))).
Proof.
  cbv zeta.
  destruct (Loader_new_members plugins provide_ros_api server_nh)
    as (H0 & Hcm).
  destruct (run_keeps_collaborators cs
              (snd (Loader.Loader_new plugins provide_ros_api server_nh)))
    as [_ Hk].
  rewrite Hcm in Hk. split; [exact Hk|].
  rewrite (Loader_delete_eq _ _ Hk). simpl. rewrite emitted_app.
  split; [reflexivity|]. split; [reflexivity|]. split; [reflexivity|].
  split; [reflexivity|]. split.
  - eexists. split; [reflexivity|].
    apply Permutation_map, Permutation_sym, Permutation_rev.
  - apply wf_NoDup, run_wf. rewrite H0. constructor.
Qed.

(** ** The remapping table built by [serviceLoad] *)

Section BuildMap.

Variable resolve : string -> option string.

(** The loop of [serviceLoad], from any index and any table, when every name
    it visits resolves: it returns, adds one [ROS_DEBUG] per iteration and
    changes no member of the loader; the table it returns keeps the
    [std::map] invariant, holds the keys it had plus the resolved sources
    visited, leaves the keys not visited as they were, and maps a resolved
    source to the resolved target of the last index that has this source. *)
Lemma build_map_from n : forall i req acc w,
  (forall j, i <= j < i + n ->
     remap_source resolve req j <> None /\ remap_target resolve req j <> None) ->
  exists T tr,
    LoaderROS.build_map resolve n i req acc w
    = (Returns T, mkWorld (this w) (trace w ++ tr))
    /\ length tr = n
    /\ forallb is_diagnostic tr = true
    /\ (StdMap.wf acc -> StdMap.wf T)
    /\ (forall k, In k (StdMap.keys T)
                  <-> In k (StdMap.keys acc)
                      \/ exists j, i <= j < i + n
                                   /\ remap_source resolve req j = Some k)
    /\ (forall k, (forall j, i <= j < i + n ->
                     remap_source resolve req j <> Some k) ->
                  StdMap.find k T = StdMap.find k acc)
    /\ (forall j k v, i <= j < i + n ->
          remap_source resolve req j = Some k ->
          remap_target resolve req j = Some v ->
          (forall j', j < j' < i + n -> remap_source resolve req j' <> Some k) ->
          StdMap.find k T = Some v).
Proof.
  induction n as [|n IH]; intros i req acc w Hres.
  - exists acc, []. simpl. unfold ret. rewrite app_nil_r.
    split; [now destruct w|]. split; [reflexivity|]. split; [reflexivity|].
    split; [auto|]. split.
    + intros k. split; [auto|]. intros [H | (j & Hj & _)]; [exact H | lia].
    + split; [reflexivity|]. intros j k v Hj. lia.
  - simpl. destruct (Hres i) as [Hs Ht]; [lia|].
    unfold remap_source, remap_target in Hs, Ht.
    destruct (resolve (nth i (remap_source_args req) "")) as [source|] eqn:Es;
      [|congruence].
    destruct (resolve (nth i (remap_target_args req) "")) as [target|] eqn:Et;
      [|congruence].
    set (acc' := StdMap.assign source target acc).
    unfold bind at 1. unfold emit at 1.
    destruct (IH (S i) req acc'
                (mkWorld (this w)
                   (trace w ++
                    [ROS_DEBUG remap_debug_format
                       [source;
                        match StdMap.find source acc' with
                        | Some s => s
                        | None => ""
                        end]])))
      as (T & tr & E & Hlen & Hdbg & Hwf & Hkeys & Hframe & Hlast).
    { intros j Hj. apply Hres. lia. }
    exists T. eexists. rewrite E. simpl. rewrite <- app_assoc. simpl.
    split; [reflexivity|]. split; [simpl; now rewrite Hlen|].
    split; [simpl; exact Hdbg|]. split.
    { intros Ha. apply Hwf. now apply wf_assign. }
    split.
    { intros k. rewrite Hkeys. unfold acc'. rewrite keys_assign_In. split.
      - intros [[-> | H] | (j & Hj & Hk)].
        + right. exists i. split; [lia | exact Es].
        + now left.
        + right. exists j. split; [lia | exact Hk].
      - intros [H | (j & Hj & Hk)].
        + left. now right.
        + destruct (Nat.eq_dec j i) as [-> | Hne].
          * left. left. unfold remap_source in Hk. congruence.
          * right. exists j. split; [lia | exact Hk]. }
    split.
    { intros k Hk. rewrite Hframe by (intros j Hj; apply Hk; lia).
      unfold acc'. apply find_assign_other. intros ->.
      apply (Hk i); [lia | exact Es]. }
    intros j k v Hj Hk Hv Hlater.
    destruct (Nat.eq_dec j i) as [-> | Hne].
    + unfold remap_source in Hk. unfold remap_target in Hv.
      assert (k = source) by congruence. assert (v = target) by congruence.
      subst k v.
      rewrite Hframe by (intros j' Hj'; apply Hlater; lia).
      unfold acc'. apply find_assign_same.
    + apply (Hlast j); [lia | exact Hk | exact Hv |].
      intros j' Hj'. apply Hlater. lia.
Qed.

(** The loop in any case: it returns or throws [InvalidNameException], it
    changes no member of the loader and writes only log lines. *)
Lemma build_map_outcome n : forall i req acc w,
  exists tr,
    forallb is_diagnostic tr = true
    /\ ((exists T, LoaderROS.build_map resolve n i req acc w
                   = (Returns T, mkWorld (this w) (trace w ++ tr)))
        \/ LoaderROS.build_map resolve n i req acc w
           = (Throws InvalidNameException, mkWorld (this w) (trace w ++ tr))).
Proof.
  induction n as [|n IH]; intros i req acc w.
  - exists []. split; [reflexivity|]. left. exists acc. simpl. unfold ret.
    rewrite app_nil_r. now destruct w.
  - simpl.
    destruct (resolve (nth i (remap_source_args req) "")) as [source|];
      [destruct (resolve (nth i (remap_target_args req) "")) as [target|]|].
    + unfold bind, emit.
      match goal with
      | |- context [LoaderROS.build_map resolve n (S i) req ?a ?w'] =>
          destruct (IH (S i) req a w') as (tr & Hd & [[T E] | E])
      end.
      * rewrite E. simpl.
        match goal with
        | |- context [(trace w ++ [?e]) ++ tr] => exists (e :: tr)
        end.
        rewrite <- app_assoc. split; [exact Hd|]. left. now exists T.
      * rewrite E. simpl.
        match goal with
        | |- context [(trace w ++ [?e]) ++ tr] => exists (e :: tr)
        end.
        rewrite <- app_assoc. split; [exact Hd|]. now right.
    + exists []. split; [reflexivity|]. right. unfold throw.
      rewrite app_nil_r. now destruct w.
    + exists []. split; [reflexivity|]. right. unfold throw.
      rewrite app_nil_r. now destruct w.
Qed.

Lemma build_map_throws n : forall i req acc w,
  (exists j, i <= j < i + n
             /\ (remap_source resolve req j = None
                 \/ remap_target resolve req j = None)) ->
  fst (LoaderROS.build_map resolve n i req acc w) = Throws InvalidNameException.
Proof.
  induction n as [|n IH]; intros i req acc w (j & Hj & Hbad); [lia|].
  simpl. unfold remap_source, remap_target in Hbad.
  destruct (resolve (nth i (remap_source_args req) "")) as [source|] eqn:Es;
    [destruct (resolve (nth i (remap_target_args req) "")) as [target|] eqn:Et|];
    try reflexivity.
  unfold bind at 1. unfold emit at 1.
  match goal with
  | |- context [LoaderROS.build_map resolve n (S i) req ?a ?w'] =>
      pose proof (IH (S i) req a w') as H
  end.
  destruct (Nat.eq_dec j i) as [-> | Hne].
  - destruct Hbad; congruence.
  - match type of H with
    | _ -> fst ?b = _ => destruct b as [[T| |] w'']
    end; simpl in *;
      (assert (F : exists j0, S i <= j0 < S i + n
                 /\ (remap_source resolve req j0 = None
                     \/ remap_target resolve req j0 = None))
         by (exists j; split; [lia | exact Hbad]));
      specialize (H F); first [discriminate H | exact H].
Qed.

(** The table of a request: what the loop of [serviceLoad] does when it
    starts at index 0 with an empty map. It changes no member of the loader.
    If every name of the two lists resolves, it returns a table whose keys
    are exactly the resolved sources; the lists are scanned in order and a
    later pair with the same resolved source overwrites an earlier one. If
    some name does not resolve, the loop throws [InvalidNameException]. *)
Theorem build_map_table req w :
  let n := length (remap_source_args req) in
  let r := LoaderROS.build_map resolve n 0 req StdMap.empty w in
  this (snd r) = this w
  /\ ((forall j, j < n -> remap_source resolve req j <> None
                          /\ remap_target resolve req j <> None) ->
      exists T,
        fst r = Returns T
        /\ StdMap.wf T
        /\ (forall k, In k (StdMap.keys T)
                      <-> exists j, j < n /\ remap_source resolve req j = Some k)
        /\ (forall j k v, j < n ->
              remap_source resolve req j = Some k ->
              remap_target resolve req j = Some v ->
              (forall j', j < j' < n -> remap_source resolve req j' <> Some k) ->
              StdMap.find k T = Some v))
  /\ ((exists j, j < n /\ (remap_source resolve req j = None
                           \/ remap_target resolve req j = None)) ->
      fst r = Throws InvalidNameException).
Proof.
  cbv zeta. split; [|split].
  - destruct (build_map_outcome (length (remap_source_args req)) 0 req
                StdMap.empty w) as (tr & _ & [[T E] | E]); now rewrite E.
  - intros Hres.
    destruct (build_map_from (length (remap_source_args req)) 0 req
                StdMap.empty w)
      as (T & tr & E & _ & _ & Hwf & Hkeys & _ & Hlast).
    { intros j Hj. apply Hres. lia. }
    exists T. rewrite E. simpl. split; [reflexivity|].
    split; [apply Hwf; constructor|]. split.
    + intros k. rewrite Hkeys. simpl. split.
      * intros [[] | (j & Hj & Hk)]. exists j. split; [lia | exact Hk].
      * intros (j & Hj & Hk). right. exists j. split; [lia | exact Hk].
    + intros j k v Hj Hk Hv Hlater. apply (Hlast j); [lia | exact Hk | exact Hv|].
      intros j' Hj'. apply Hlater. lia.
  - intros (j & Hj & Hbad). apply build_map_throws.
    exists j. split; [lia | exact Hbad].
Qed.

End BuildMap.

Lemma build_map_table_witness :
  (exists T,
     fst (LoaderROS.build_map Sample.resolve_name 3 0 Sample.remapped
            StdMap.empty Sample.fresh) = Returns T
     /\ StdMap.find "out" T = Some "image_rect"
     /\ StdMap.find "in" T = Some "raw")
  /\ fst (LoaderROS.build_map Sample.resolve_name 2 0 Sample.invalid_remap
            StdMap.empty Sample.fresh) = Throws InvalidNameException.
Proof.
  split.
  - destruct (build_map_table Sample.resolve_name Sample.remapped Sample.fresh)
      as (_ & H & _).
    destruct H as (T & H1 & _ & _ & H2).
    { intros j Hj. simpl in Hj.
      destruct j as [|[|[|j]]]; [| | |lia]; split; discriminate. }
    exists T. split; [exact H1|]. split.
    + apply (H2 2); [simpl; lia | reflexivity | reflexivity |].
      intros j' Hj'. simpl in Hj'. lia.
    + apply (H2 1); [simpl; lia | reflexivity | reflexivity |].
      intros j' Hj'. simpl in Hj'.
      assert (j' = 2) as -> by lia. vm_compute. discriminate.
  - apply (build_map_table Sample.resolve_name Sample.invalid_remap
             Sample.fresh).
    exists 1. split; [simpl; lia | left; reflexivity].
Defined.

(** ** [serviceLoad]: the table it passes on, and the bond *)

Section ServiceLoadGeneral.

Variable resolve : string -> option string.

(** [serviceLoad] is: some log lines, then either the exception of the
    remapping loop, or a table, the bond if one is asked for, [load] with
    that table and bond, and the start of the bond if [load] returned. *)
Lemma serviceLoad_eq self req w :
  exists pre,
    forallb is_diagnostic pre = true
    /\ ((exists T,
           (length (remap_source_args req) = length (remap_target_args req) ->
            fst (LoaderROS.build_map resolve (length (remap_source_args req))
                   0 req StdMap.empty w) = Returns T)
           /\ LoaderROS.serviceLoad resolve self req w
              = match Loader.load (req_name req) (req_type req) T
                        (req_my_argv req) (request_bond self req)
                        (mkWorld (this w)
                           (trace w ++ pre
                            ++ bond_queue_events (request_bond self req))) with
                | (Returns b, w') =>
                    (Returns (b, b),
                     mkWorld (this w')
                       (trace w' ++ bond_start_events (request_bond self req)))
                | (Throws e, w') => (Throws e, w')
                | (Aborts, w') => (Aborts, w')
                end)
        \/ (length (remap_source_args req) = length (remap_target_args req)
            /\ fst (LoaderROS.build_map resolve (length (remap_source_args req))
                      0 req StdMap.empty w) = Throws InvalidNameException
            /\ LoaderROS.serviceLoad resolve self req w
               = (Throws InvalidNameException,
                  mkWorld (this w) (trace w ++ pre)))).
Proof.
  unfold LoaderROS.serviceLoad, request_bond.
  destruct (length (remap_source_args req) =? length (remap_target_args req))%nat
    eqn:Hlen; simpl negb; cbv iota.
  - destruct (build_map_outcome resolve (length (remap_source_args req)) 0 req
                StdMap.empty w) as (tr & Hdbg & [[T E] | E]).
    + exists tr. split; [exact Hdbg|]. left. exists T.
      split; [intros _; now rewrite E|].
      unfold bind at 1. rewrite E. unfold bind at 1.
      destruct (negb (String.eqb (req_bond_id req) "")); simpl.
      * unfold bind at 1. unfold emit at 1. unfold ret at 1. simpl.
        unfold bind at 1. rewrite <- app_assoc.
        destruct (Loader.load _ _ _ _ _ _) as [[b| |] w']; reflexivity.
      * unfold ret at 1. unfold bind at 1. rewrite app_nil_r.
        destruct (Loader.load _ _ _ _ _ _) as [[b| |] w']; try reflexivity.
        unfold_M. simpl. rewrite app_nil_r. now destruct w'.
    + exists tr. split; [exact Hdbg|]. right.
      split; [now apply Nat.eqb_eq|]. split; [now rewrite E|].
      unfold bind at 1. rewrite E. reflexivity.
  - exists [ROS_ERROR
         "Bad remapppings provided, target and source of different length" []].
    split; [reflexivity|]. left. exists StdMap.empty. split.
    { intros H. apply Nat.eqb_neq in Hlen. contradiction. }
    unfold bind at 1. unfold bind at 1. unfold emit at 1. unfold ret at 1.
    unfold bind at 1.
    destruct (negb (String.eqb (req_bond_id req) "")); simpl.
    + unfold bind at 1. unfold emit at 1. unfold ret at 1. simpl.
      unfold bind at 1. rewrite <- app_assoc. simpl.
      destruct (Loader.load _ _ _ _ _ _) as [[b| |] w']; reflexivity.
    + unfold ret at 1. unfold bind at 1.
      destruct (Loader.load _ _ _ _ _ _) as [[b| |] w']; try reflexivity.
      unfold_M. simpl. rewrite app_nil_r. now destruct w'.
Qed.

End ServiceLoadGeneral.

(** The events of one [load], as far as the bond is concerned. *)
Lemma load_events w name type remappings my_argv bond :
  exists tr,
    trace (snd (Loader.load name type remappings my_argv bond w)) = trace w ++ tr
    /\ existsb is_BondStart tr = false
    /\ (fst (Loader.load name type remappings my_argv bond w) = Returns true ->
        forall b, bond = Some b -> In (BondSetBrokenCallback b name) tr)
    /\ (fst (Loader.load name type remappings my_argv bond w) <> Returns true ->
        existsb is_BondSetBrokenCallback tr = false)
    /\ (forall e m, In e tr -> init_remappings e = Some m -> m = remappings)
    /\ (forall p, StdMap.count name (nodelets_ (this w)) = 0 ->
                  next_instance w type = Returns (Some p) ->
                  In (NodeletInit p name remappings my_argv bond) tr).
Proof.
  rewrite load_eq.
  destruct (0 <? StdMap.count name (nodelets_ (this w)))%nat eqn:Hc.
  - eexists. split; [reflexivity|]. simpl. split; [reflexivity|].
    split; [discriminate|]. split; [reflexivity|]. split.
    + intros e m Hin He.
      repeat (destruct Hin as [<- | Hin]; [discriminate He|]). contradiction.
    + intros p Hz. rewrite Hz in Hc. discriminate.
  - rewrite load_create_eq.
    replace (next_instance (mkWorld (this w) (trace w ++ [MutexLock])) type)
      with (next_instance w type) by reflexivity.
    destruct (next_instance w type) as [[p|]|[what|what]|] eqn:Hn; simpl.
    2-5: (app_norm; eexists; split; [reflexivity|]; simpl;
          split; [reflexivity|]; split; [discriminate|];
          split; [reflexivity|]; split;
          [ intros e m Hin He;
            repeat (destruct Hin as [<- | Hin]; [discriminate He|]);
            contradiction
          | intros p' _ Hp; discriminate Hp ]).
    destruct (init_throws p name remappings my_argv) as [[what|what]|];
      simpl; destruct bond as [b|]; simpl; app_norm;
      (eexists; split; [reflexivity|]; simpl; split; [reflexivity|];
       split; [first [discriminate
                     | intros _ b' Hb'; inversion Hb'; subst; simpl; tauto]|];
       split; [first [reflexivity | congruence]|]; split;
       [ intros e m Hin He;
         repeat (destruct Hin as [<- | Hin];
                 [first [discriminate He | now inversion He]|]);
         contradiction
       | intros p' _ Hp; inversion Hp; subst; simpl; tauto ]).
Qed.

Lemma diagnostics_no_init pre e m :
  forallb is_diagnostic pre = true -> In e pre -> init_remappings e = Some m ->
  False.
Proof.
  intros H Hin He. rewrite forallb_forall in H. specialize (H e Hin).
  destruct e; discriminate.
Qed.

Lemma diagnostics_no_bond pre :
  forallb is_diagnostic pre = true ->
  existsb is_bond_event pre = false
  /\ existsb is_BondStart pre = false
  /\ existsb is_BondSetBrokenCallback pre = false.
Proof.
  induction pre as [|e pre IH]; simpl; [auto|]. intros H.
  apply andb_true_iff in H. destruct H as [H1 H2].
  destruct (IH H2) as (-> & -> & ->). destruct e; try discriminate H1; auto.
Qed.

(** When the two remapping lists have the same length: if every name in
    them resolves, every [init] called during [serviceLoad] receives the
    table built by the loop, and [init] is called with it whenever the name
    is free and the factory returns an instance; if some name does not
    resolve, [serviceLoad] throws [InvalidNameException] out of the loop,
    having written only log lines: [load] is not called and no member of
    the loader changes. *)
Theorem serviceLoad_passes_table resolve self req w :
  length (remap_source_args req) = length (remap_target_args req) ->
  let n := length (remap_source_args req) in
  let r := LoaderROS.serviceLoad resolve self req w in
  ((forall j, j < n -> remap_source resolve req j <> None
                       /\ remap_target resolve req j <> None) ->
   exists T,
     fst (LoaderROS.build_map resolve n 0 req StdMap.empty w) = Returns T
     /\ (forall e m, In e (emitted w (snd r)) -> init_remappings e = Some m ->
                     m = T)
     /\ (forall p,
           StdMap.count (req_name req) (nodelets_ (this w)) = 0 ->
           next_instance w (req_type req) = Returns (Some p) ->
           In (NodeletInit p (req_name req) T (req_my_argv req)
                           (request_bond self req))
              (emitted w (snd r))))
  /\ ((exists j, j < n /\ (remap_source resolve req j = None
                           \/ remap_target resolve req j = None)) ->
      fst r = Throws InvalidNameException
      /\ this (snd r) = this w
      /\ forallb is_diagnostic (emitted w (snd r)) = true).
Proof.
  intros Hlen. cbv zeta.
  destruct (serviceLoad_eq resolve self req w)
    as (pre & Hpre & [(T & HT & E) | (_ & HE & E)]); rewrite E; clear E.
  - specialize (HT Hlen). split.
    2: { intros (j & Hj & Hbad).
         rewrite (build_map_throws resolve _ 0 req StdMap.empty w) in HT;
           [discriminate HT|]. exists j. split; [lia | exact Hbad]. }
    intros _. exists T. split; [exact HT|].
    destruct (load_events
                (mkWorld (this w)
                   (trace w ++ pre ++ bond_queue_events (request_bond self req)))
                (req_name req) (req_type req) T (req_my_argv req)
                (request_bond self req))
      as (tr & Htr & _ & _ & _ & Hinit & Hcalled).
    simpl in Hcalled.
    assert (Hin : forall e rest,
      (forall m, In e rest -> init_remappings e = Some m -> m = T) ->
      forall m,
      In e (pre ++ bond_queue_events (request_bond self req) ++ tr ++ rest) ->
      init_remappings e = Some m -> m = T).
    { intros e rest Hrest m H He. apply in_app_or in H. destruct H as [H | H].
      - exfalso. eapply diagnostics_no_init; eassumption.
      - apply in_app_or in H. destruct H as [H | H].
        + destruct (request_bond self req); simpl in H;
            [destruct H as [<- | []]; discriminate He | contradiction].
        + apply in_app_or in H. destruct H as [H | H]; eauto. }
    destruct (Loader.load _ _ _ _ _ _) as [[b| |] [l' tr']]; simpl in Htr;
      subst tr'; cbn [fst snd]; unfold emitted; simpl trace; app_norm;
      rewrite skipn_app, skipn_all, Nat.sub_diag; simpl skipn;
      rewrite app_nil_l.
    + split.
      * intros e m H He. eapply Hin; [|exact H|exact He].
        intros m' H' He'. destruct (request_bond self req); simpl in H';
          [destruct H' as [<- | []]; discriminate He' | contradiction].
      * intros p Hz Hn. apply in_or_app. right. apply in_or_app. right.
        apply in_or_app. left. now apply Hcalled.
    + split.
      * intros e' m H He. eapply (Hin e' []); [contradiction| |exact He].
        now rewrite app_nil_r.
      * intros p Hz Hn. apply in_or_app. right. apply in_or_app. right.
        now apply Hcalled.
    + split.
      * intros e' m H He. eapply (Hin e' []); [contradiction| |exact He].
        now rewrite app_nil_r.
      * intros p Hz Hn. apply in_or_app. right. apply in_or_app. right.
        now apply Hcalled.
  - split.
    + intros Hres.
      destruct (build_map_from resolve (length (remap_source_args req)) 0 req
                  StdMap.empty w) as (T & tr & E & _).
      { intros j Hj. apply Hres. lia. }
      rewrite E in HE. discriminate HE.
    + intros _. simpl. rewrite emitted_app. auto.
Qed.

Lemma serviceLoad_passes_table_witness :
  (exists T,
     fst (LoaderROS.build_map Sample.resolve_name
            (length (remap_source_args Sample.remapped)) 0 Sample.remapped
            StdMap.empty Sample.fresh) = Returns T
     /\ In (NodeletInit (Sample.well_behaved 0) "cam" T []
              (request_bond (mkLoaderROS Sample.nh) Sample.remapped))
           (emitted Sample.fresh
              (snd (LoaderROS.serviceLoad Sample.resolve_name
                      (mkLoaderROS Sample.nh) Sample.remapped Sample.fresh))))
  /\ fst (LoaderROS.serviceLoad Sample.resolve_name (mkLoaderROS Sample.nh)
            Sample.invalid_remap Sample.fresh)
     = Throws InvalidNameException.
Proof.
  split.
  - destruct (serviceLoad_passes_table Sample.resolve_name
                (mkLoaderROS Sample.nh) Sample.remapped Sample.fresh)
      as (H & _); [simpl; lia|].
    destruct H as (T & H1 & _ & H2).
    { intros j Hj. simpl in Hj.
      destruct j as [|[|[|j]]]; [| | |lia]; split; discriminate. }
    exists T. split; [exact H1|].
    apply (H2 (Sample.well_behaved 0)); vm_compute; reflexivity.
  - destruct (serviceLoad_passes_table Sample.resolve_name
                (mkLoaderROS Sample.nh) Sample.invalid_remap Sample.fresh)
      as (_ & H); [simpl; lia|].
    apply H. exists 1. split; [simpl; lia | left; reflexivity].
Defined.

Lemma occurs_before_In is1 is2 e1 e2 l1 l2 l3 :
  is1 e1 = true -> is2 e2 = true -> In e1 l2 ->
  occurs_before is1 is2 (l1 ++ l2 ++ e2 :: l3) = true.
Proof.
  intros H1 H2 Hin. rewrite occurs_before_app.
  rewrite (occurs_before_app is1 is2 l2).
  assert (E1 : existsb is1 l2 = true) by (apply existsb_exists; eauto).
  rewrite E1. simpl. rewrite H2. simpl.
  rewrite !orb_true_r. reflexivity.
Qed.

Lemma load_without_bond w name type remappings my_argv tr :
  trace (snd (Loader.load name type remappings my_argv None w)) = trace w ++ tr ->
  existsb is_bond_event tr = false.
Proof.
  rewrite load_eq.
  destruct (0 <? StdMap.count name (nodelets_ (this w)))%nat eqn:Hc.
  - simpl. intros H. apply app_inv_head in H. subst tr. reflexivity.
  - rewrite load_create_eq.
    replace (next_instance (mkWorld (this w) (trace w ++ [MutexLock])) type)
      with (next_instance w type) by reflexivity.
    destruct (next_instance w type) as [[p|]|[what|what]|] eqn:Hn; simpl.
    2-5: (app_norm; intros H; apply app_inv_head in H; subst tr; reflexivity).
    destruct (init_throws p name remappings my_argv) as [[what|what]|];
      simpl; app_norm; intros H; apply app_inv_head in H; subst tr;
      reflexivity.
Qed.

Section ServiceLoadBond.

Variable resolve : string -> option string.

(** [serviceLoad] and the bond. Without a bond id no bond is touched. With
    one, the bond is made on the topic of the handle's namespace followed by
    "/bond"; whenever [load] returns, true or false, the bond is started,
    once and as the last thing; the broken callback that unloads the
    request's name is registered only if [load] returned true, and then
    before the start; if [load] throws the bond is not started. *)
Theorem serviceLoad_bond self req w :
  let r := LoaderROS.serviceLoad resolve self req w in
  let tr := emitted w (snd r) in
  (req_bond_id req = "" -> existsb is_bond_event tr = false)
  /\ (forall b, request_bond self req = Some b ->
        bond_topic b = (getNamespace (nh_ self) ++ "/bond")%string
        /\ bond_id b = req_bond_id req
        /\ (forall ok, fst r = Returns (ok, ok) ->
              exists pre, tr = pre ++ [BondStart b]
                          /\ existsb is_BondStart pre = false)
        /\ (fst r = Returns (true, true) ->
              In (BondSetBrokenCallback b (req_name req)) tr
              /\ occurs_before is_BondSetBrokenCallback is_BondStart tr = true)
        /\ (fst r = Returns (false, false) ->
              existsb is_BondSetBrokenCallback tr = false)
        /\ (forall e, fst r = Throws e -> existsb is_BondStart tr = false)).
Proof.
  cbv zeta.
  destruct (serviceLoad_eq resolve self req w)
    as (pre & Hpre & [(T & _ & E) | (_ & _ & E)]); rewrite E; clear E;
    destruct (diagnostics_no_bond pre Hpre) as (Hp1 & Hp2 & Hp3).
  2: { cbn [fst snd]. rewrite emitted_app. split; [intros _; exact Hp1|].
       intros b Hb. unfold request_bond in Hb.
       destruct (negb (String.eqb (req_bond_id req) "")); inversion Hb.
       simpl. repeat split; try discriminate. intros e _. exact Hp2. }
  destruct (load_events
              (mkWorld (this w)
                 (trace w ++ pre ++ bond_queue_events (request_bond self req)))
              (req_name req) (req_type req) T (req_my_argv req)
              (request_bond self req))
    as (trl & Htr & Hns & Hcb & Hnocb & _ & _).
  destruct (request_bond self req) as [bd|] eqn:Hb.
  - split.
    { intros Hid. unfold request_bond in Hb. rewrite Hid in Hb.
      discriminate Hb. }
    intros b Hbb. inversion Hbb; subst b. clear Hbb.
    split; [|split].
    { unfold request_bond in Hb.
      destruct (negb (String.eqb (req_bond_id req) "")); inversion Hb.
      reflexivity. }
    { unfold request_bond in Hb.
      destruct (negb (String.eqb (req_bond_id req) "")); inversion Hb.
      reflexivity. }
    destruct (Loader.load _ _ _ _ _ _) as [[ok| |] [l' tr']]; simpl in Htr;
      subst tr'; cbn [fst snd bond_start_events bond_queue_events] in *;
      unfold emitted; simpl trace; app_norm;
      rewrite skipn_app, skipn_all, Nat.sub_diag; simpl skipn;
      rewrite app_nil_l.
    + split; [|split; [|split]].
      * intros ok' _. exists (pre ++ BondSetCallbackQueue bd :: trl).
        split; [app_norm; reflexivity|].
        rewrite existsb_app, Hp2. simpl. exact Hns.
      * intros H. inversion H; subst ok. split.
        -- apply in_or_app. right. right. apply in_or_app. left.
           now apply Hcb.
        -- replace (pre ++ BondSetCallbackQueue bd :: trl ++ [BondStart bd])
             with ((pre ++ [BondSetCallbackQueue bd]) ++ trl
                   ++ BondStart bd :: []) by (app_norm; reflexivity).
           eapply occurs_before_In; [| |apply Hcb; reflexivity]; reflexivity.
      * intros H. inversion H; subst ok.
        rewrite existsb_app, Hp3. simpl. rewrite existsb_app.
        rewrite Hnocb by discriminate. reflexivity.
      * discriminate.
    + split; [discriminate|]. split; [discriminate|]. split; [discriminate|].
      intros e' _. rewrite existsb_app, Hp2. simpl. exact Hns.
    + repeat split; discriminate.
  - split; [|discriminate]. intros _. simpl in Htr.
    destruct (Loader.load _ _ _ _ _ _) as [[ok| |] [l' tr']] eqn:El;
      pose proof (load_without_bond _ _ _ _ _ trl
                    (eq_trans (f_equal (fun x => trace (snd x)) El) Htr)) as Hnb;
      simpl in Htr; subst tr';
      cbn [fst snd bond_start_events bond_queue_events] in *;
      unfold emitted; simpl trace; app_norm;
      rewrite skipn_app, skipn_all, Nat.sub_diag; simpl skipn;
      rewrite app_nil_l, ?app_nil_r, existsb_app, Hp1; simpl; exact Hnb.
Qed.

End ServiceLoadBond.

Lemma serviceLoad_bond_witness :
  let r := LoaderROS.serviceLoad Sample.resolve_name (mkLoaderROS Sample.nh)
             Sample.remapped Sample.with_cam in
  fst r = Returns (false, false)
  /\ exists pre,
       emitted Sample.with_cam (snd r)
       = pre ++ [BondStart (mkBond "/manager/bond" "bond42")]
       /\ existsb is_BondStart pre = false.
Proof.
  assert (H : fst (LoaderROS.serviceLoad Sample.resolve_name (mkLoaderROS Sample.nh)
                     Sample.remapped Sample.with_cam)
              = Returns (false, false)) by (vm_compute; reflexivity).
  split; [exact H|].
  destruct (serviceLoad_bond Sample.resolve_name (mkLoaderROS Sample.nh)
              Sample.remapped Sample.with_cam) as [_ Hb].
  destruct (Hb (mkBond "/manager/bond" "bond42")) as (_ & _ & Hs & _).
  - vm_compute; reflexivity.
  - exact (Hs false H).
Defined.

(** ** [serviceUnload], [serviceList] and a session through the services *)

Lemma serviceUnload_eq self name w :
  LoaderROS.serviceUnload self name w
  = match StdMap.find name (nodelets_ (this w)) with
    | Some p => (Returns (true, true), snd (Loader.unload name w))
    | None =>
        (Returns (false, false),
         mkWorld (this w)
           (trace w ++
            [MutexLock; MutexUnlock;
             ROS_ERROR "Failed to find nodelet with name '%s' to unload."
                       [name]]))
    end.
Proof.
  unfold LoaderROS.serviceUnload. unfold bind at 1. rewrite unload_eq.
  destruct (StdMap.find name (nodelets_ (this w))); unfold_M; simpl.
  - reflexivity.
  - app_norm. reflexivity.
Qed.

Lemma serviceList_eq self w :
  LoaderROS.serviceList self w
  = (Returns (true, StdMap.keys (nodelets_ (this w))),
     mkWorld (this w) (trace w ++ [MutexLock; MutexUnlock])).
Proof.
  unfold LoaderROS.serviceList, bind. rewrite listLoadedNodelets_eq.
  reflexivity.
Qed.

(** [serviceUnload] answers with the flag of [unload], the same in the
    return value and in the response, and leaves the loader as [unload]
    does; it writes a [ROS_ERROR] exactly when the name was not found, and
    then nothing of the loader has changed. *)
Theorem serviceUnload_reports self name w :
  let r := LoaderROS.serviceUnload self name w in
  exists ok,
    fst r = Returns (ok, ok)
    /\ fst (Loader.unload name w) = Returns ok
    /\ ok = (0 <? StdMap.count name (nodelets_ (this w)))%nat
    /\ this (snd r) = this (snd (Loader.unload name w))
    /\ existsb is_ROS_ERROR (emitted w (snd r)) = negb ok
    /\ (ok = false -> this (snd r) = this w).
Proof.
  cbv zeta. rewrite serviceUnload_eq, unload_eq. unfold StdMap.count.
  destruct (StdMap.find name (nodelets_ (this w))) as [p|]; simpl.
  - exists true. rewrite emitted_app. repeat split; try reflexivity.
    discriminate.
  - exists false. rewrite emitted_app. repeat split; reflexivity.
Qed.

Section Session.

Variable resolve : string -> option string.

(** A session through the three services. If [serviceLoad] answers true for
    a request on a loader whose map is in order, then [serviceList] shows the
    request's name exactly once; [serviceUnload] of the name answers true
    and gives back the map as it was before the load; after that
    [serviceList] does not show the name, and a second [serviceUnload]
    answers false. *)
Theorem service_session self req w :
  StdMap.wf (nodelets_ (this w)) ->
  let r1 := LoaderROS.serviceLoad resolve self req w in
  fst r1 = Returns (true, true) ->
  let r2 := LoaderROS.serviceList self (snd r1) in
  let r3 := LoaderROS.serviceUnload self (req_name req) (snd r2) in
  let r4 := LoaderROS.serviceList self (snd r3) in
  let r5 := LoaderROS.serviceUnload self (req_name req) (snd r4) in
  ~ In (req_name req) (StdMap.keys (nodelets_ (this w)))
  /\ (exists l, fst r2 = Returns (true, l)
                /\ count_occ string_dec l (req_name req) = 1)
  /\ fst r3 = Returns (true, true)
  /\ nodelets_ (this (snd r3)) = nodelets_ (this w)
  /\ fst r4 = Returns (true, StdMap.keys (nodelets_ (this w)))
  /\ fst r5 = Returns (false, false).
Proof.
  intros Hwf. cbv zeta.
  destruct (serviceLoad_eq resolve self req w)
    as (pre & _ & [(T & _ & E) | (_ & _ & E)]); rewrite E; clear E.
  2: { cbn [fst]. discriminate. }
  destruct (Loader.load _ _ _ _ _ _) as [[ok| |] w1] eqn:El; cbn [fst snd];
    try discriminate.
  intros Hok. inversion Hok; subst ok. clear Hok.
  pose proof (load_true_inv _ _ _ _ _ _ (f_equal fst El)) as (p & _ & Hz & Hq).
  rewrite El in Hq. simpl in Hz, Hq.
  assert (Hni : ~ In (req_name req) (StdMap.keys (nodelets_ (this w)))).
  { apply count_zero_not_In. now rewrite Hz. }
  split; [exact Hni|].
  rewrite !serviceList_eq. simpl.
  rewrite serviceUnload_eq. simpl. rewrite Hq, find_assign_same. simpl.
  rewrite unload_eq. simpl. rewrite Hq, find_assign_same. simpl.
  rewrite erase_assign by assumption.
  split.
  { eexists. split; [reflexivity|].
    rewrite count_occ_keys by (now apply wf_assign).
    unfold StdMap.count. now rewrite find_assign_same. }
  split; [reflexivity|]. split; [reflexivity|].
  rewrite ?serviceList_eq. simpl. split; [reflexivity|].
  rewrite ?serviceUnload_eq. simpl.
  apply find_None_not_In in Hni. now rewrite Hni.
Qed.

End Session.

Lemma service_session_witness :
  let r1 := LoaderROS.serviceLoad Sample.resolve_name (mkLoaderROS Sample.nh)
              Sample.remapped Sample.fresh in
  let r2 := LoaderROS.serviceList (mkLoaderROS Sample.nh) (snd r1) in
  let r3 := LoaderROS.serviceUnload (mkLoaderROS Sample.nh) "cam" (snd r2) in
  fst r3 = Returns (true, true)
  /\ nodelets_ (this (snd r3)) = nodelets_ (this Sample.fresh).
Proof.
  destruct (service_session Sample.resolve_name (mkLoaderROS Sample.nh)
              Sample.remapped Sample.fresh) as (_ & _ & H3 & H4 & _).
  - vm_compute. constructor.
  - vm_compute; reflexivity.
  - split; [exact H3 | exact H4].
Defined.

(** ** The guard of [load] *)

(** [load] never overwrites: a key that maps to a nodelet before [load],
    whatever the name loaded and whatever [load] returns or throws, maps to
    the same nodelet after it. The factory is asked once when the name is
    free and not at all when it is taken. *)
Theorem load_never_overwrites w name type remappings my_argv bond :
  let r := Loader.load name type remappings my_argv bond w in
  (forall k p, StdMap.find k (nodelets_ (this w)) = Some p ->
               StdMap.find k (nodelets_ (this (snd r))) = Some p)
  /\ calls (loader_ (this (snd r)))
     = calls (loader_ (this w))
       + (if (0 <? StdMap.count name (nodelets_ (this w)))%nat then 0 else 1).
Proof.
  cbv zeta. rewrite load_eq.
  destruct (0 <? StdMap.count name (nodelets_ (this w)))%nat eqn:Hc.
  - simpl. split; [auto | lia].
  - assert (Hnone : StdMap.find name (nodelets_ (this w)) = None).
    { unfold StdMap.count in Hc.
      destruct (StdMap.find name (nodelets_ (this w))); [discriminate|].
      reflexivity. }
    rewrite load_create_eq. unfold next_instance; simpl.
    assert (Hkeep : forall q k p,
      StdMap.find k (nodelets_ (this w)) = Some p ->
      StdMap.find k (StdMap.assign name q (nodelets_ (this w))) = Some p).
    { intros q k p Hk. rewrite find_assign_other; [exact Hk|].
      intros ->. congruence. }
    destruct (createClassInstance_ _ _ _) as [[p|]|[what|what]|]; simpl;
      try (split; [auto | lia]).
    destruct (init_throws p _ _ _) as [[what|what]|]; simpl;
      (split; [apply Hkeep | lia]).
Qed.

Lemma load_never_overwrites_witness :
  StdMap.find "cam"
    (nodelets_ (this (snd (Loader.load "cam" "FilterType" StdMap.empty [] None
                             Sample.with_cam))))
  = Some (Sample.well_behaved 0).
Proof.
  apply (proj1 (load_never_overwrites Sample.with_cam "cam" "FilterType"
                  StdMap.empty [] None)).
  vm_compute; reflexivity.
Defined.
